(** * The Snowflake adapter of dbt: a shallow embedding of
      [dbt/adapters/snowflake/impl.py] and the properties of its
      identifier normaliser, object lister, bulk cache loader and
      warehouse hook.

    Conventions of the embedding.
    - A Python [str] is a [string]. [str.upper] and [str.lower] fold by
      the tables of Unicode, which are no part of this development: the
      two methods are the members of the class [Str], and a property that
      needs a fact about them says which one (see [upper_idempotent] and
      [upper_ascii]). The runs of the examples use the folding of the
      ASCII letters, [ascii_str], on names that are ASCII.
    - agate is not part of the package either; its tables are modelled
      as far as the adapter reads them, with the exceptions Python raises.
    - A Python [dict] is a [gmap]; a Python [set] is a [gset], and
      the order in which a [for] loop visits a set is left open (any
      enumeration without repetition, see [set_iter]).
    - A method that talks to the warehouse is a computation in the monad
      [M]: it threads the adapter's state (the relations cache and the
      journal of requests sent so far) and either returns or raises. *)

From Stdlib Require Import Ascii String.
From stdpp Require Import gmap strings list fin_maps.

Local Open Scope bool_scope.

(** ** Python strings *)

Definition upper_char (c : ascii) : ascii :=
  let n := N_of_ascii c in
  if (97 <=? n)%N && (n <=? 122)%N then ascii_of_N (n - 32) else c.

Definition lower_char (c : ascii) : ascii :=
  let n := N_of_ascii c in
  if (65 <=? n)%N && (n <=? 90)%N then ascii_of_N (n + 32) else c.

Fixpoint str_map (f : ascii → ascii) (s : string) : string :=
  match s with
  | EmptyString => EmptyString
  | String c s' => String (f c) (str_map f s')
  end.

(** [s.upper()] and [s.lower()], whatever Python's tables make of a string. *)
Class Str := {
  upper : string → string;
  lower : string → string
}.

(** The two methods on a string of ASCII characters: the 26 letters are
    folded, every other character is kept. *)
Definition ascii_upper (s : string) : string := str_map upper_char s.
Definition ascii_lower (s : string) : string := str_map lower_char s.

Fixpoint is_ascii (s : string) : bool :=
  match s with
  | EmptyString => true
  | String c s' => (N_of_ascii c <? 128)%N && is_ascii s'
  end.

(** The folding the runs of the examples are made with. *)
Definition ascii_str : Str := {| upper := ascii_upper; lower := ascii_lower |}.

(** [needle in hay] on two strings: [needle] occurs somewhere in [hay]. *)
Fixpoint str_in (needle hay : string) : bool :=
  String.prefix needle hay ||
  match hay with
  | EmptyString => false
  | String _ hay' => str_in needle hay'
  end.

(** The double quote, which the adapter's messages put around a database name. *)
Definition dquote : string := String (ascii_of_N 34) EmptyString.

(** The line feed of the adapter's two-line messages. *)
Definition newline : string := String (ascii_of_N 10) EmptyString.

(** ** [dbt.utils.filter_null_values]: drop the keys bound to [None]. *)

Definition filter_null_values {V : Type} (input : gmap string (option V)) : gmap string V :=
  omap id input.

(** ** The identifier normaliser *)

(** [self.config.quoting], a dict with the three keys below. *)
Record Quoting := {
  quoting_database : bool;
  quoting_schema : bool;
  quoting_identifier : bool
}.

Definition _make_match_kwargs {str : Str} (quoting : Quoting)
    (database schema identifier : option string) : gmap string string :=
  let identifier :=
    match identifier with
    | Some s => if bool_decide (quoting_identifier quoting = false) then Some (upper s) else identifier
    | None => identifier
    end in
  let schema :=
    match schema with
    | Some s => if bool_decide (quoting_schema quoting = false) then Some (upper s) else schema
    | None => schema
    end in
  let database :=
    match database with
    | Some s => if bool_decide (quoting_database quoting = false) then Some (upper s) else database
    | None => database
    end in
  filter_null_values
    (<["database" := database]> (<["schema" := schema]> (<["identifier" := identifier]> ∅))).

(** ** Exceptions and outcomes *)

(** The exceptions the adapter meets. [DatabaseException] and
    [RuntimeException] are dbt's; both carry the text [str(exc)] gives.
    An [except DatabaseException] clause catches the first one only.
    [BuiltinError] stands for Python's own errors ([KeyError],
    [ValueError], [IndexError]), by class name and argument. *)
Inductive exn :=
| DatabaseException (msg : string)
| RuntimeException (msg : string)
| BuiltinError (cls : string) (arg : string).

#[global] Instance exn_eq_dec : EqDecision exn.
Proof. solve_decision. Defined.

(** [str(exc)]. *)
Definition exn_str (exc : exn) : string :=
  match exc with
  | DatabaseException msg => msg
  | RuntimeException msg => msg
  | BuiltinError _ arg => arg
  end.

(** What a call comes to: a value, or an exception on its way up. *)
Inductive result (A : Type) :=
| Return (a : A)
| Raise (exc : exn).
Arguments Return {A} a.
Arguments Raise {A} exc.

#[global] Instance result_eq_dec `{EqDecision A} : EqDecision (result A).
Proof. solve_decision. Defined.

#[global] Instance result_ret : MRet result := @Return.
#[global] Instance result_bind : MBind result := λ A B f m,
  match m with
  | Return a => f a
  | Raise exc => Raise exc
  end.

(** [[f(x) for x in xs]] where [f] may raise: the first exception ends it. *)
Fixpoint collect {A B : Type} (f : A → result B) (xs : list A) : result (list B) :=
  match xs with
  | [] => Return []
  | x :: xs' => y ← f x; ys ← collect f xs'; Return (y :: ys)
  end.

(** ** agate tables, as far as the adapter reads them *)

Module agate.

(** A row knows its column names: it can be read by position and by name. *)
Record Row := {
  keys : list string;
  values : list string
}.

Record Table := {
  column_names : list string;
  rows : list (list string)
}.

(** [for row in table]. *)
Definition iter (table : Table) : list Row :=
  (λ vs, {| keys := column_names table; values := vs |}) <$> rows table.

(** [row[key]] with a column name: the lookup goes through the row's
    [dict(zip(keys, values))], where a later binding of a name wins. *)
Definition getitem (row : Row) (key : string) : result string :=
  match (list_to_map (reverse (zip (keys row) (values row))) : gmap string string) !! key with
  | Some v => Return v
  | None => Raise (BuiltinError "KeyError" key)
  end.

(** The position of a column name, the first one as [tuple.index] finds
    it; the [ValueError] of [tuple.index] does not name what it missed. *)
Definition index (names : list string) (key : string) : result nat :=
  match list_find (λ name, name = key) names with
  | Some (i, _) => Return i
  | None => Raise (BuiltinError "ValueError" "tuple.index(x): x not in tuple")
  end.

(** [table.select(key)]: the table of the named columns, in the order
    asked for; each new row reads the old one at the columns' positions. *)
Definition select (table : Table) (key : list string) : result Table :=
  indexes ← collect (index (column_names table)) key;
  new_rows ← collect (λ row : list string,
                collect (λ i, match row !! i with
                              | Some v => Return v
                              | None => Raise (BuiltinError "IndexError"
                                                 "tuple index out of range")
                              end) indexes) (rows table);
  Return {| column_names := key; rows := new_rows |}.

(** A table as agate builds it: column names are distinct and every row
    has one value per column. *)
Definition well_formed (table : Table) : bool :=
  bool_decide (NoDup (column_names table)) &&
  forallb (λ row : list string, bool_decide (length row = length (column_names table)))
          (rows table).

End agate.

(** ** Relations *)

Module RelationType.

Inductive t := Table | View | CTE | MaterializedView | External | Unknown.

#[global] Instance eq_dec : EqDecision t.
Proof. solve_decision. Defined.

End RelationType.

Record QuotePolicy := {
  policy_database : bool;
  policy_schema : bool;
  policy_identifier : bool
}.

#[global] Instance QuotePolicy_eq_dec : EqDecision QuotePolicy.
Proof. solve_decision. Defined.

(** What [Relation.create(database=, schema=, identifier=, quote_policy=, type=)] builds. *)
Record Relation := {
  rel_database : option string;
  rel_schema : option string;
  rel_identifier : option string;
  rel_quote_policy : QuotePolicy;
  rel_type : RelationType.t
}.

#[global] Instance Relation_eq_dec : EqDecision Relation.
Proof. solve_decision. Defined.

(** A schema relation of the manifest (a relation [without_identifier()]):
    manifest nodes of a Snowflake project always name their database and schema. *)
Record SchemaRelation := {
  database : string;
  schema : string
}.

(** ** The relations cache *)

(** Modelled from the spec: the relations cache is dbt-core's, not part of
    this package; what follows is the cache of the specification (3, 4.3):
    [relationsByKey] maps the normalised (database, schema, identifier) to
    a descriptor, [knownSchemas] holds the normalised (database, schema)
    pairs marked known. Normalising a name is lower-casing it, the folding
    the bulk loader itself applies when it compares schema names. *)
Definition lowercase {str : Str} (value : option string) : option string :=
  lower <$> value.

Definition SchemaKey : Type := option string * option string.
Definition RelationKey : Type := option string * option string * option string.

Definition schema_key {str : Str} (database schema : option string) : SchemaKey :=
  (lowercase database, lowercase schema).

Definition relation_key {str : Str} (relation : Relation) : RelationKey :=
  (lowercase (rel_database relation), lowercase (rel_schema relation),
   lowercase (rel_identifier relation)).

Record RelationsCache := {
  relationsByKey : gmap RelationKey Relation;
  knownSchemas : gset SchemaKey
}.

Module cache.

Definition empty : RelationsCache :=
  {| relationsByKey := ∅; knownSchemas := ∅ |}.

(** [clear()]: removes all entries and all known-schema markers. *)
Definition clear (c : RelationsCache) : RelationsCache := empty.

(** [add(relation)]: inserts or overwrites the descriptor at its key and
    marks its schema as known. *)
Definition add {str : Str} (relation : Relation) (c : RelationsCache) : RelationsCache :=
  {| relationsByKey := <[relation_key relation := relation]> (relationsByKey c);
     knownSchemas :=
       knownSchemas c ∪ {[schema_key (rel_database relation) (rel_schema relation)]} |}.

(** [update_schemas(pairs)]: marks every pair as known. *)
Definition update_schemas {str : Str} (pairs : gset SchemaKey) (c : RelationsCache)
    : RelationsCache :=
  {| relationsByKey := relationsByKey c;
     knownSchemas := knownSchemas c ∪ set_map (λ p : SchemaKey, schema_key p.1 p.2) pairs |}.

(** [getRelationsInSchema(database, schema)]: the descriptors whose
    normalised (database, schema) is the one asked for. *)
Definition getRelationsInSchema {str : Str} (database schema : option string)
    (c : RelationsCache) : list Relation :=
  filter (λ r, schema_key (rel_database r) (rel_schema r) = schema_key database schema)
         (map_to_list (relationsByKey c)).*2.

(** [isSchemaKnown(database, schema)]. *)
Definition isSchemaKnown {str : Str} (database schema : option string)
    (c : RelationsCache) : bool :=
  bool_decide (schema_key database schema ∈ knownSchemas c).

End cache.

(** ** The adapter's state and its monad *)

(** An argument of a macro call. *)
Inductive macro_arg :=
| ArgStr (s : string)
| ArgRelation (relation : Relation).

#[global] Instance macro_arg_eq_dec : EqDecision macro_arg.
Proof. solve_decision. Defined.

(** What the adapter sends to the warehouse: [self.execute(sql, fetch=)]
    and [self.execute_macro(name, kwargs=)]. *)
Inductive request :=
| Execute (sql : string) (fetch : bool)
| ExecuteMacro (macro_name : string) (kwargs : gmap string macro_arg).

#[global] Instance request_eq_dec : EqDecision request.
Proof. solve_decision. Defined.

(** What the warehouse answers: a table, or an exception. *)
Abbreviation reply := (result agate.Table).

(** The adapter's state: its relations cache, and the journal of the
    requests sent so far, each with the reply it got. *)
Record State := {
  relations_cache : RelationsCache;
  journal : list (request * reply)
}.

(** The state after some more exchanges with the warehouse. *)
Definition journal_add (st : State) (entries : list (request * reply)) : State :=
  {| relations_cache := relations_cache st; journal := journal st ++ entries |}.

Definition M (A : Type) : Type := State → result A * State.

#[global] Instance M_ret : MRet M := λ A a st, (Return a, st).
#[global] Instance M_bind : MBind M := λ A B k m st,
  match m st with
  | (Return a, st') => k a st'
  | (Raise exc, st') => (Raise exc, st')
  end.

(** [raise exc]. *)
Definition raise {A : Type} (exc : exn) : M A := λ st, (Raise exc, st).

(** A pure call that may raise, made from a method. *)
Definition lift {A : Type} (r : result A) : M A := λ st, (r, st).

(** [try: body  except ...: handler], the handler re-raising what its
    [except] clause does not name. *)
Definition try_except {A : Type} (body : M A) (handler : exn → M A) : M A := λ st,
  match body st with
  | (Return a, st') => (Return a, st')
  | (Raise exc, st') => handler exc st'
  end.

(** [for x in xs: body]. *)
Fixpoint for_each {A : Type} (xs : list A) (body : A → M unit) : M unit :=
  match xs with
  | [] => mret tt
  | x :: xs' => body x ;; for_each xs' body
  end.

(** A change of [self.cache]. *)
Definition modify_cache (f : RelationsCache → RelationsCache) : M unit := λ st,
  (Return tt, {| relations_cache := f (relations_cache st); journal := journal st |}).

(** ** The adapter *)

Definition LIST_DATABASE_OBJECTS_MACRO_NAME : string := "snowflake__list_database_objects".

(** The request [_relations_cache_for_schemas] sends for a database. *)
Definition objects_listing (database : string) : request :=
  ExecuteMacro LIST_DATABASE_OBJECTS_MACRO_NAME {["database" := ArgStr database]}.

(** The rows of the listings that were answered with a table. *)
Definition listed_rows (exchanges : list (request * reply)) : list agate.Row :=
  exchanges ≫= λ exchange,
    match exchange.2 with
    | Return table => agate.iter table
    | Raise _ => []
    end.

(** An exchange that was answered with a table. *)
Definition answered (exchange : request * reply) : Prop :=
  ∃ table, exchange.2 = Return table.

(** The message of the failure that wraps a database error [msg] met while
    listing [what] (schemas, objects) in a database. *)
Definition listing_failure (what database msg : string) : string :=
  "Database error while listing " +:+ what +:+ " in database "
  +:+ dquote +:+ database +:+ dquote +:+ newline +:+ msg.

(** The query [_get_warehouse] sends. *)
Definition current_warehouse_query : request :=
  Execute "select current_warehouse() as warehouse" true.

(** ** A warehouse to run the adapter against

    The session the examples and witnesses below use: the database
    ANALYTICS with the schemas PUBLIC (a table and a view) and STAGING (a
    stage), the empty database SCRATCH, and no other database. *)

Module fixture.

(** Modelled from the spec: [get_relation_type] belongs to the relation
    class, which is not in this file's source; the kinds are those of the
    specification's descriptor (3), read by their lower-cased names. *)
Definition get_relation_type (kind : string) : option RelationType.t :=
  if decide (kind = "table") then Some RelationType.Table
  else if decide (kind = "view") then Some RelationType.View
  else if decide (kind = "cte") then Some RelationType.CTE
  else if decide (kind = "materializedview") then Some RelationType.MaterializedView
  else if decide (kind = "external") then Some RelationType.External
  else None.

Definition objects (rows : list (list string)) : agate.Table :=
  {| agate.column_names := ["database_name"; "schema_name"; "name"; "kind"];
     agate.rows := rows |}.

Definition public_objects : list (list string) :=
  [ ["ANALYTICS"; "PUBLIC"; "ORDERS"; "TABLE"];
    ["ANALYTICS"; "PUBLIC"; "V1"; "VIEW"] ].

Definition staging_objects : list (list string) :=
  [ ["ANALYTICS"; "STAGING"; "RAW"; "STAGE"] ].

(** The warehouse in use after the statements of [history]: the one named
    by the last [use warehouse], COMPUTE_WH before any. *)
Definition active_warehouse (history : list (request * reply)) : string :=
  foldl (λ active exchange,
           match exchange with
           | (Execute sql _, Return _) =>
               if String.prefix "use warehouse " sql
               then String.substring 14 (String.length sql - 14) sql
               else active
           | _ => active
           end)
        "COMPUTE_WH" history.

Definition no_rows : agate.Table := {| agate.column_names := []; agate.rows := [] |}.

Definition warehouse (history : list (request * reply)) (r : request) : reply :=
  match r with
  | Execute sql _ =>
      if decide (sql = "select current_warehouse() as warehouse")
      then Return {| agate.column_names := ["WAREHOUSE"];
                     agate.rows := [[active_warehouse history]] |}
      else Return no_rows
  | ExecuteMacro macro_name kwargs =>
      if decide (macro_name = LIST_DATABASE_OBJECTS_MACRO_NAME) then
        match kwargs !! "database" with
        | Some (ArgStr "ANALYTICS") => Return (objects (public_objects ++ staging_objects))
        | Some (ArgStr "SCRATCH") => Return (objects [])
        | _ => Raise (DatabaseException "Database does not exist or not authorized.")
        end
      else if decide (macro_name = "list_schemas") then
        match kwargs !! "database" with
        | Some (ArgStr "ANALYTICS") =>
            Return {| agate.column_names := ["created_on"; "name"];
                      agate.rows := [["2021-12-03"; "PUBLIC"]; ["2021-12-03"; "STAGING"]] |}
        | _ => Raise (DatabaseException "Database does not exist or not authorized.")
        end
      else
        match kwargs !! "schema_relation" with
        | Some (ArgRelation relation) =>
            if decide (rel_schema relation = Some "PUBLIC") then Return (objects public_objects)
            else Raise (DatabaseException
                          "SQL compilation error: Object does not exist, or operation cannot be performed.")
        | _ => Raise (BuiltinError "TypeError" "schema_relation")
        end
  end.

(** The column lookup of the parent class: ORDERS has two columns, and
    nothing else can be described. *)
Definition super_get_columns_in_relation (relation : Relation) : M (list string) :=
  λ st, (if decide (rel_identifier relation = Some "ORDERS")
         then Return ["ID"; "AMOUNT"]
         else Raise (DatabaseException
                       "SQL compilation error: Table does not exist or not authorized."),
         st).

Definition schema_relation (database schema : string) : Relation :=
  {| rel_database := Some database; rel_schema := Some schema; rel_identifier := None;
     rel_quote_policy :=
       {| policy_database := true; policy_schema := true; policy_identifier := true |};
     rel_type := RelationType.Unknown |}.

Definition relation (database schema identifier : string) (kind : RelationType.t) : Relation :=
  {| rel_database := Some database; rel_schema := Some schema;
     rel_identifier := Some identifier;
     rel_quote_policy :=
       {| policy_database := true; policy_schema := true; policy_identifier := true |};
     rel_type := kind |}.

(** A fresh adapter: nothing cached, nothing sent. *)
Definition start : State := {| relations_cache := cache.empty; journal := [] |}.

(** Two requested schemas, each in a database of its own. *)
Definition two_schemas : list SchemaRelation :=
  [ {| database := "ANALYTICS"; schema := "PUBLIC" |};
    {| database := "SCRATCH"; schema := "STAGING" |} ].


(** The listed object ANALYTICS.STAGING.RAW, as a row and as a relation. *)
Definition raw_row : agate.Row :=
  {| agate.keys := ["database_name"; "schema_name"; "name"; "kind"];
     agate.values := ["ANALYTICS"; "STAGING"; "RAW"; "STAGE"] |}.

Definition raw : Relation := relation "ANALYTICS" "STAGING" "RAW" RelationType.External.

(** The order [elements] lists a set in is one a loop may follow. *)
Definition elements_order (X : gset string) : elements X ≡ₚ elements X :=
  Permutation_refl (elements X).

(** A session that cannot tell its warehouse: whatever is asked, the
    reply has no row. *)
Definition silent_warehouse (history : list (request * reply)) (r : request) : reply :=
  Return no_rows.

(** The session with QUOTED_IDENTIFIERS_IGNORE_CASE set: the same
    replies, with their column names in upper case. *)
Definition ignore_case_warehouse (history : list (request * reply)) (r : request) : reply :=
  match warehouse history r with
  | Return table =>
      Return {| agate.column_names := ascii_upper <$> agate.column_names table;
                agate.rows := agate.rows table |}
  | Raise exc => Raise exc
  end.

(** A population that stops at its second database. *)
Definition one_missing : list SchemaRelation :=
  [ {| database := "ANALYTICS"; schema := "PUBLIC" |};
    {| database := "NOWHERE"; schema := "PUBLIC" |} ].



End fixture.

(** ** The methods *)

Section SnowflakeAdapter.

Local Set Default Proof Using "Type".

(** What the adapter takes from Python, from dbt-core and from the warehouse. *)

(** [str.upper] and [str.lower], and the two facts about [str.upper] that
    the properties of the normaliser rest on: upper-casing twice is
    upper-casing once, and on a string of ASCII characters it folds the 26
    letters and nothing else. *)
Context {str : Str}.
Hypothesis upper_idempotent : ∀ s, upper (upper s) = upper s.
Hypothesis upper_ascii : ∀ s, is_ascii s = true → upper s = ascii_upper s.

(** The names of the two macros of [dbt.adapters.sql.impl]. *)
Variables LIST_SCHEMAS_MACRO_NAME LIST_RELATIONS_MACRO_NAME : string.

(** The manifest and [self._get_cache_schemas(manifest)], listed in the
    order a loop visits them. *)
Variable Manifest : Type.
Variable _get_cache_schemas : Manifest → list SchemaRelation.

(** [self.Relation.get_relation_type(kind)]; [None] is its [ValueError]. *)
Variable get_relation_type : string → option RelationType.t.

(** [super().get_columns_in_relation(relation)], whatever it does. *)
Variable Column : Type.
Variable super_get_columns_in_relation : Relation → M (list Column).

(** The warehouse: its reply to a request, given everything exchanged before. *)
Variable warehouse : list (request * reply) → request → reply.

(** The order in which a loop visits a set of strings: each member once. *)
Variable set_iter : gset string → list string.
Hypothesis set_iter_perm : ∀ X, set_iter X ≡ₚ elements X.

Definition send (r : request) : M agate.Table := λ st,
  let answer := warehouse (journal st) r in
  (answer, journal_add st [(r, answer)]).

(** [self.execute(sql, fetch=fetch)]; of the pair it returns the adapter
    only ever reads the table. *)
Definition execute (sql : string) (fetch : bool) : M agate.Table :=
  send (Execute sql fetch).

Definition execute_macro (macro_name : string) (kwargs : gmap string macro_arg) : M agate.Table :=
  send (ExecuteMacro macro_name kwargs).

Definition _get_warehouse : M string :=
  table ← execute "select current_warehouse() as warehouse" true;
  match agate.rows table with
  | [] => raise (RuntimeException "Could not get current warehouse: no results")
  | [] :: _ => raise (RuntimeException "Could not get current warehouse: no results")
  | (value :: _) :: _ => mret value
  end.

Definition _use_warehouse (warehouse : string) : M unit :=
  execute ("use warehouse " +:+ warehouse) false ;; mret tt.

(** [default_warehouse] is [self.config.credentials.warehouse]; [config]
    is the model's configuration, [config.get(key, default)] its lookup. *)
Definition pre_model_hook (default_warehouse : option string)
    (config : gmap string (option string)) : M (option string) :=
  let warehouse := default default_warehouse (config !! "snowflake_warehouse") in
  if bool_decide (warehouse = default_warehouse) || bool_decide (warehouse = None) then
    mret None
  else
    match warehouse with
    | Some warehouse =>
        previous ← _get_warehouse;
        _use_warehouse warehouse ;;
        mret (Some previous)
    | None => mret None
    end.

Definition post_model_hook (config : gmap string (option string))
    (context : option string) : M unit :=
  match context with
  | Some context => _use_warehouse context
  | None => mret tt
  end.

Definition list_schemas (database : string) : M (list string) :=
  results ← try_except
    (execute_macro LIST_SCHEMAS_MACRO_NAME {["database" := ArgStr database]})
    (λ exc, match exc with
            | DatabaseException _ =>
                let msg := "Database error while listing schemas in database "
                           +:+ dquote +:+ database +:+ dquote +:+ newline +:+ exn_str exc in
                raise (RuntimeException msg)
            | _ => raise exc
            end);
  lift (collect (λ row, agate.getitem row "name") (agate.iter results)).

Definition get_columns_in_relation (relation : Relation) : M (list Column) :=
  try_except (super_get_columns_in_relation relation)
    (λ exc, match exc with
            | DatabaseException _ =>
                if str_in "does not exist or not authorized" (exn_str exc) then mret []
                else raise exc
            | _ => raise exc
            end).

Definition list_relations_without_caching (schema_relation : Relation) : M (list Relation) :=
  let kwargs : gmap string macro_arg := {["schema_relation" := ArgRelation schema_relation]} in
  (* [None] is the [return []] of the handler, which leaves the method *)
  outcome ← try_except
    (results ← execute_macro LIST_RELATIONS_MACRO_NAME kwargs; mret (Some results))
    (λ exc, match exc with
            | DatabaseException _ =>
                if str_in "Object does not exist" (exn_str exc) then mret None
                else raise exc
            | _ => raise exc
            end);
  match outcome with
  | None => mret []
  | Some results =>
      let quote_policy :=
        {| policy_database := true; policy_schema := true; policy_identifier := true |} in
      let columns := ["database_name"; "schema_name"; "name"; "kind"] in
      selected ← lift (agate.select results columns);
      lift (foldl (λ (acc : result (list Relation)) (row : list string),
              relations ← acc;
              match row with
              | [_database; _schema; _identifier; _type] =>
                  let _type := match get_relation_type (lower _type) with
                               | Some t => t
                               | None => RelationType.External
                               end in
                  Return (relations ++
                            [{| rel_database := Some _database;
                                rel_schema := Some _schema;
                                rel_identifier := Some _identifier;
                                rel_quote_policy := quote_policy;
                                rel_type := _type |}])
              | _ => Raise (BuiltinError "ValueError" "unpack")
              end)
            (Return []) (agate.rows selected))
  end.

Definition _database_object_to_relation (database_object : agate.Row) : result Relation :=
  let quote_policy :=
    {| policy_database := true; policy_schema := true; policy_identifier := true |} in
  kind ← agate.getitem database_object "kind";
  let _type := match get_relation_type (lower kind) with
               | Some t => t
               | None => RelationType.External
               end in
  database_name ← agate.getitem database_object "database_name";
  schema_name ← agate.getitem database_object "schema_name";
  name ← agate.getitem database_object "name";
  Return {| rel_database := Some database_name;
            rel_schema := Some schema_name;
            rel_identifier := Some name;
            rel_quote_policy := quote_policy;
            rel_type := _type |}.

(** The descriptor the specification gives to a listed row
    (database_name, schema_name, name, kind): the three names as they
    are, every part quoted, and the kind parsed, [External] when it is
    not a known one. The two mappings above are compared with it. *)
Definition row_descriptor (database_name schema_name name kind : string) : Relation :=
  {| rel_database := Some database_name;
     rel_schema := Some schema_name;
     rel_identifier := Some name;
     rel_quote_policy :=
       {| policy_database := true; policy_schema := true; policy_identifier := true |};
     rel_type := default RelationType.External (get_relation_type (lower kind)) |}.

Definition _relations_cache_for_schemas (manifest : Manifest) : M unit :=
  let cache_schemas := _get_cache_schemas manifest in
  let '(schema_databases, cache_schema_names) :=
    foldl (λ (sets : gset string * gset string) cache_schema,
             (sets.1 ∪ {[database cache_schema]},
              sets.2 ∪ {[lower (schema cache_schema)]}))
          (∅, ∅) cache_schemas in
  for_each (set_iter schema_databases) (λ database,
    results ← try_except
      (execute_macro LIST_DATABASE_OBJECTS_MACRO_NAME {["database" := ArgStr database]})
      (λ exc, match exc with
              | DatabaseException _ =>
                  let msg := "Database error while listing objects in database "
                             +:+ dquote +:+ database +:+ dquote +:+ newline +:+ exn_str exc in
                  raise (RuntimeException msg)
              | _ => raise exc
              end);
    for_each (agate.iter results) (λ database_object,
      schema_name ← lift (agate.getitem database_object "schema_name");
      if bool_decide (lower schema_name ∈ cache_schema_names) then
        relation ← lift (_database_object_to_relation database_object);
        modify_cache (cache.add relation)
      else mret tt)) ;;
  let cache_update : gset SchemaKey :=
    foldl (λ (acc : gset SchemaKey) relation,
             acc ∪ {[(Some (database relation), Some (schema relation))]})
          ∅ cache_schemas in
  modify_cache (cache.update_schemas cache_update).

(** The [with self.cache.lock] around the body is a no-op for the one
    thread this embedding runs. *)
Definition set_relations_cache (manifest : Manifest) (clear : bool) : M unit :=
  (if clear then modify_cache cache.clear else mret tt) ;;
  _relations_cache_for_schemas manifest.

(** *** The loops of the bulk loader, piece by piece

    The same code as in [_relations_cache_for_schemas], with the two loop
    bodies given names (see [relations_cache_for_schemas_unfold]). *)

Definition load_row (cache_schema_names : gset string) (database_object : agate.Row)
    : M unit :=
  schema_name ← lift (agate.getitem database_object "schema_name");
  if bool_decide (lower schema_name ∈ cache_schema_names) then
    relation ← lift (_database_object_to_relation database_object);
    modify_cache (cache.add relation)
  else mret tt.

Definition load_database (cache_schema_names : gset string) (database : string) : M unit :=
  results ← try_except
    (execute_macro LIST_DATABASE_OBJECTS_MACRO_NAME {["database" := ArgStr database]})
    (λ exc, match exc with
            | DatabaseException _ =>
                let msg := "Database error while listing objects in database "
                           +:+ dquote +:+ database +:+ dquote +:+ newline +:+ exn_str exc in
                raise (RuntimeException msg)
            | _ => raise exc
            end);
  for_each (agate.iter results) (load_row cache_schema_names).

(** A row is loaded as a relation: its schema name, lower-cased, is one
    of the names asked for, and the row maps to the relation. *)
Definition loaded (cache_schema_names : gset string) (row : agate.Row)
    (relation : Relation) : Prop :=
  ∃ schema_name,
    agate.getitem row "schema_name" = Return schema_name ∧
    lower schema_name ∈ cache_schema_names ∧
    _database_object_to_relation row = Return relation.

(** How a cache grows when rows are loaded into it. *)
Definition extends (names : gset string) (rows : list agate.Row)
    (c c' : RelationsCache) : Prop :=
  knownSchemas c ⊆ knownSchemas c' ∧
  dom (relationsByKey c) ⊆ dom (relationsByKey c') ∧
  (∀ k r, relationsByKey c' !! k = Some r →
          relationsByKey c !! k = Some r ∨
          ∃ row, row ∈ rows ∧ loaded names row r ∧ relation_key r = k) ∧
  (∀ row r, row ∈ rows → loaded names row r →
            relation_key r ∈ dom (relationsByKey c')).


(** How a cache has changed when the loader has gone through [rows],
    whether or not the run went on after them: what is known, what is
    stored, and where a stored relation comes from. *)
Definition grown (names : gset string) (rows : list agate.Row)
    (c c' : RelationsCache) : Prop :=
  (∀ pair, pair ∈ knownSchemas c' ↔
           pair ∈ knownSchemas c ∨
           ∃ row r, row ∈ rows ∧ loaded names row r ∧
                    schema_key (rel_database r) (rel_schema r) = pair) ∧
  (∀ key, key ∈ dom (relationsByKey c') ↔
          key ∈ dom (relationsByKey c) ∨
          ∃ row r, row ∈ rows ∧ loaded names row r ∧ relation_key r = key) ∧
  (∀ key r, relationsByKey c' !! key = Some r →
            relationsByKey c !! key = Some r ∨
            ∃ row, row ∈ rows ∧ loaded names row r ∧ relation_key r = key).

(** A row the loader stops at with [exc]: reading its schema name raises
    [exc], or the schema name is one asked for and mapping the row to a
    relation raises [exc]. *)
Definition unreadable (names : gset string) (row : agate.Row) (exc : exn) : Prop :=
  agate.getitem row "schema_name" = Raise exc ∨
  ∃ schema_name,
    agate.getitem row "schema_name" = Return schema_name ∧
    lower schema_name ∈ names ∧
    _database_object_to_relation row = Raise exc.

(** Every stored relation's schema is a known schema. *)
Definition schemas_of_relations_known (c : RelationsCache) : Prop :=
  ∀ key r, relationsByKey c !! key = Some r →
           schema_key (rel_database r) (rel_schema r) ∈ knownSchemas c.

(** The relation the loader stores for a row, if it stores one. *)
Definition relation_of (names : gset string) (row : agate.Row) : option Relation :=
  match agate.getitem row "schema_name" with
  | Return schema_name =>
      if bool_decide (lower schema_name ∈ names) then
        match _database_object_to_relation row with
        | Return relation => Some relation
        | Raise _ => None
        end
      else None
  | Raise _ => None
  end.

(** The cache after [self.cache.add] of each relation, one after the other. *)
Definition add_all (relations : list Relation) (c : RelationsCache) : RelationsCache :=
  foldl (λ c relation, cache.add relation c) c relations.
(** * Properties *)

(** ** Strings *)

Lemma upper_char_idemp c : upper_char (upper_char c) = upper_char c.
Proof. destruct c as [[] [] [] [] [] [] [] []]; reflexivity. Qed.

Lemma str_map_compose f g s : str_map f (str_map g s) = str_map (λ c, f (g c)) s.
Proof. induction s as [|c s IH]; simpl; [done | by rewrite IH]. Qed.

Lemma str_map_ext f g s : (∀ c, f c = g c) → str_map f s = str_map g s.
Proof. intros E. induction s as [|c s IH]; simpl; [done | by rewrite E, IH]. Qed.

Lemma ascii_upper_idemp s : ascii_upper (ascii_upper s) = ascii_upper s.
Proof.
  unfold ascii_upper. rewrite str_map_compose.
  apply str_map_ext, upper_char_idemp.
Qed.

(** ** The identifier normaliser *)

Lemma filter_null_values_lookup {V} (input : gmap string (option V)) k :
  filter_null_values input !! k = input !! k ≫= id.
Proof. unfold filter_null_values. apply lookup_omap. Qed.

Lemma make_match_kwargs_lookup q d s i k :
  _make_match_kwargs q d s i !! k =
    if decide (k = "database") then (if quoting_database q then d else upper <$> d)
    else if decide (k = "schema") then (if quoting_schema q then s else upper <$> s)
    else if decide (k = "identifier") then (if quoting_identifier q then i else upper <$> i)
    else None.
Proof.
  unfold _make_match_kwargs. rewrite filter_null_values_lookup.
  destruct q as [[] [] []], d, s, i; simpl;
    repeat case_decide; subst; by simplify_map_eq.
Qed.

(** ** Outcomes of the normaliser *)

(** C4: every present part is upper-cased, by [str.upper], exactly when
    its quoting flag is false and left as it is when the flag is true; an
    absent part has no key in the result, and no other key is ever bound;
    with all flags false, ("db", "sch", "Tbl") becomes ("DB", "SCH",
    "TBL"), [str.upper] folding the letters of an ASCII string. *)
Theorem make_match_kwargs_folds_unquoted_parts
    (quoting : Quoting) (database schema identifier : option string) :
  let kwargs := _make_match_kwargs quoting database schema identifier in
  kwargs !! "database" =
    (if quoting_database quoting then database else upper <$> database) ∧
  kwargs !! "schema" =
    (if quoting_schema quoting then schema else upper <$> schema) ∧
  kwargs !! "identifier" =
    (if quoting_identifier quoting then identifier else upper <$> identifier) ∧
  dom kwargs ⊆ {["database"; "schema"; "identifier"]} ∧
  _make_match_kwargs
      {| quoting_database := false; quoting_schema := false; quoting_identifier := false |}
      (Some "db") (Some "sch") (Some "Tbl")
    = {["database" := "DB"; "schema" := "SCH"; "identifier" := "TBL"]}.
Proof using upper_ascii.
  intros kwargs. subst kwargs.
  split_and!; try (rewrite make_match_kwargs_lookup; reflexivity).
  - intros k [v Hk]%elem_of_dom.
    rewrite make_match_kwargs_lookup in Hk.
    rewrite !elem_of_union, !elem_of_singleton.
    repeat case_decide; subst; auto. done.
  - apply map_eq. intros k. rewrite make_match_kwargs_lookup. simpl.
    rewrite !upper_ascii by reflexivity.
    repeat case_decide; subst; by simplify_map_eq.
Qed.

(** C5: normalising the parts of a normalised triple again changes nothing,
    whatever the three quoting flags and whatever the names, [str.upper]
    being idempotent. *)
Theorem make_match_kwargs_idempotent
    (quoting : Quoting) (database schema identifier : option string) :
  let kwargs := _make_match_kwargs quoting database schema identifier in
  _make_match_kwargs quoting
    (kwargs !! "database") (kwargs !! "schema") (kwargs !! "identifier") = kwargs.
Proof using upper_idempotent.
  intros kwargs. subst kwargs. apply map_eq. intros k.
  rewrite !make_match_kwargs_lookup.
  destruct quoting as [[] [] []], database, schema, identifier; simpl;
    repeat case_decide; subst; simpl; by rewrite ?upper_idempotent.
Qed.


(** ** Substrings *)

Lemma append_nil s : "" +:+ s = s.
Proof. reflexivity. Qed.

Lemma append_cons c a s : String c a +:+ s = String c (a +:+ s).
Proof. reflexivity. Qed.

Lemma prefix_append x b : String.prefix x (x +:+ b) = true.
Proof.
  induction x as [|c x IH]; rewrite ?append_nil, ?append_cons; simpl.
  - by destruct b.
  - destruct (Ascii.ascii_dec c c); [done | congruence].
Qed.

Lemma prefix_elim x h : String.prefix x h = true → ∃ b, h = x +:+ b.
Proof.
  revert h. induction x as [|c x IH]; intros h Hp.
  - by exists h.
  - destruct h as [|c' h]; simpl in Hp; [done |].
    destruct (Ascii.ascii_dec c c') as [->|]; [| done].
    destruct (IH _ Hp) as [b ->]. by exists b.
Qed.

Lemma str_in_unfold n h :
  str_in n h = String.prefix n h ||
               match h with EmptyString => false | String _ h' => str_in n h' end.
Proof. by destruct h. Qed.

Lemma str_in_intro n a b : str_in n (a +:+ n +:+ b) = true.
Proof.
  induction a as [|c a IH]; rewrite ?append_nil, ?append_cons.
  - by rewrite str_in_unfold, prefix_append.
  - rewrite str_in_unfold, IH. apply orb_true_r.
Qed.

Lemma str_in_elim n h : str_in n h = true → ∃ a b, h = a +:+ n +:+ b.
Proof.
  induction h as [|c h IH]; rewrite str_in_unfold; intros [Hp|Hin]%orb_true_iff.
  - destruct (prefix_elim _ _ Hp) as [b ->]. by exists "", b.
  - done.
  - destruct (prefix_elim _ _ Hp) as [b ->]. by exists "", b.
  - destruct (IH Hin) as (a & b & ->). by exists (String c a), b.
Qed.

(** [needle in hay] holds exactly when [hay] is some text, [needle], some text. *)
Lemma str_in_spec n h : str_in n h = true ↔ ∃ a b, h = a +:+ n +:+ b.
Proof.
  split; [apply str_in_elim |]. intros (a & b & ->). apply str_in_intro.
Qed.

Lemma append_assoc a b c : (a +:+ b) +:+ c = a +:+ b +:+ c.
Proof.
  induction a as [|x a IH]; rewrite ?append_nil, ?append_cons; [done |].
  by rewrite IH.
Qed.

Lemma append_nil_r a : a +:+ "" = a.
Proof.
  induction a as [|x a IH]; rewrite ?append_nil, ?append_cons; [done |].
  by rewrite IH.
Qed.

(** The message of a wrapped listing failure holds the database name and
    the text of the database error. *)
Lemma listing_failure_carries what database msg :
  str_in database (listing_failure what database msg) = true ∧
  str_in msg (listing_failure what database msg) = true.
Proof.
  unfold listing_failure. split.
  - replace (_ +:+ _) with
      (("Database error while listing " +:+ what +:+ " in database " +:+ dquote)
         +:+ database +:+ dquote +:+ newline +:+ msg)
      by (by rewrite !append_assoc).
    apply str_in_intro.
  - replace (_ +:+ _) with
      (("Database error while listing " +:+ what +:+ " in database "
          +:+ dquote +:+ database +:+ dquote +:+ newline) +:+ msg +:+ "")
      by (by rewrite append_nil_r, !append_assoc).
    apply str_in_intro.
Qed.

(** ** Tables *)

Lemma collect_fmap {A B} (f : A → result B) (g : A → B) xs :
  (∀ x, x ∈ xs → f x = Return (g x)) → collect f xs = Return (g <$> xs).
Proof.
  induction xs as [|x xs IH]; intros Hf; simpl; [done |].
  rewrite Hf by left. simpl. rewrite IH; [done |].
  intros y Hy. apply Hf. by right.
Qed.

Lemma index_NoDup names i key :
  NoDup names → names !! i = Some key → agate.index names key = Return i.
Proof.
  intros Hnd Hi. unfold agate.index.
  destruct (list_find (λ name, name = key) names) as [[j name]|] eqn:Hfind.
  - apply list_find_Some in Hfind as (Hj & -> & _).
    f_equal. eapply NoDup_lookup; eauto.
  - apply list_find_None in Hfind.
    rewrite Forall_forall in Hfind.
    exfalso. eapply Hfind; [| reflexivity]. by eapply list_elem_of_lookup_2.
Qed.

Lemma getitem_NoDup ks vs i key v :
  NoDup ks → length vs = length ks → ks !! i = Some key → vs !! i = Some v →
  agate.getitem {| agate.keys := ks; agate.values := vs |} key = Return v.
Proof.
  intros Hnd Hlen Hk Hv. unfold agate.getitem. simpl.
  erewrite (elem_of_list_to_map_1 _ key v); [done | |].
  - rewrite fmap_reverse, reverse_Permutation, fst_zip by lia. done.
  - apply elem_of_reverse. apply list_elem_of_lookup. exists i.
    rewrite lookup_zip_with, Hk. simpl. by rewrite Hv.
Qed.

Lemma collect_Forall2 {A B} (f : A → result B) xs ys :
  Forall2 (λ x y, f x = Return y) xs ys → collect f xs = Return ys.
Proof.
  induction 1 as [|x y xs ys Hx _ IH]; simpl; [done |].
  by rewrite Hx, IH.
Qed.

Lemma well_formed_spec table :
  agate.well_formed table = true ↔
  NoDup (agate.column_names table) ∧
  Forall (λ row : list string, length row = length (agate.column_names table))
         (agate.rows table).
Proof.
  unfold agate.well_formed.
  rewrite andb_true_iff, bool_decide_eq_true, forallb_forall, Forall_forall.
  apply and_iff_compat_l. apply forall_proper. intros row.
  by rewrite list_elem_of_In, bool_decide_eq_true.
Qed.

(** Selecting columns of a well-formed table: every row gives its values
    at the positions of the columns asked for. *)
Lemma select_well_formed table key indexes :
  agate.well_formed table = true →
  Forall2 (λ k i, agate.column_names table !! i = Some k) key indexes →
  agate.select table key =
    Return {| agate.column_names := key;
              agate.rows := (λ row : list string, (λ i, row !!! i) <$> indexes)
                              <$> agate.rows table |}.
Proof.
  intros [Hnd Hrows]%well_formed_spec Hkey. unfold agate.select.
  rewrite (collect_Forall2 _ key indexes); simpl.
  - rewrite (collect_fmap _ (λ row : list string, (λ i, row !!! i) <$> indexes)); [done |].
    intros row Hrow. apply collect_fmap. intros i Hi.
    rewrite Forall_forall in Hrows. specialize (Hrows row Hrow).
    assert (is_Some (row !! i)) as [v Hv].
    { apply lookup_lt_is_Some. rewrite Hrows.
      apply list_elem_of_lookup in Hi as [j Hj].
      destruct (Forall2_lookup_r _ _ _ _ _ Hkey Hj) as (k & _ & Hk).
      by eapply lookup_lt_Some. }
    rewrite Hv. f_equal. symmetry. by apply list_lookup_total_correct.
  - eapply Forall2_impl; [exact Hkey |]. intros k i Hi. by apply index_NoDup.
Qed.

(** Reading a named column off a row of a well-formed table. *)
Lemma getitem_well_formed table row i key :
  agate.well_formed table = true → row ∈ agate.rows table →
  agate.column_names table !! i = Some key →
  agate.getitem {| agate.keys := agate.column_names table; agate.values := row |} key
    = Return (row !!! i).
Proof.
  intros [Hnd Hrows]%well_formed_spec Hrow Hi.
  rewrite Forall_forall in Hrows. specialize (Hrows row Hrow).
  eapply getitem_NoDup; eauto.
  apply list_lookup_lookup_total_lt. rewrite Hrows. by eapply lookup_lt_Some.
Qed.

(** ** The cache *)



(** ** Running a method *)

Lemma bind_run {A B} (m : M A) (k : A → M B) st :
  (m ≫= k) st = match m st with
                | (Return a, st') => k a st'
                | (Raise exc, st') => (Raise exc, st')
                end.
Proof. reflexivity. Qed.

Lemma try_except_run {A} (body : M A) handler st :
  try_except body handler st = match body st with
                               | (Return a, st') => (Return a, st')
                               | (Raise exc, st') => handler exc st'
                               end.
Proof. reflexivity. Qed.

Lemma journal_journal_add st xs : journal (journal_add st xs) = journal st ++ xs.
Proof. reflexivity. Qed.

Lemma send_run r st :
  send r st = (warehouse (journal st) r, journal_add st [(r, warehouse (journal st) r)]).
Proof. reflexivity. Qed.

(** ** The warehouse hook *)

Lemma get_warehouse_run st :
  _get_warehouse st =
    (match warehouse (journal st) current_warehouse_query with
     | Return table =>
         match agate.rows table with
         | (value :: _) :: _ => Return value
         | _ => Raise (RuntimeException "Could not get current warehouse: no results")
         end
     | Raise exc => Raise exc
     end,
     journal_add st [(current_warehouse_query, warehouse (journal st) current_warehouse_query)]).
Proof.
  unfold _get_warehouse, execute. rewrite bind_run, send_run.
  fold current_warehouse_query.
  destruct (warehouse (journal st) current_warehouse_query) as [table|exc]; [| done].
  by destruct (agate.rows table) as [|[|value row] rows].
Qed.

Lemma use_warehouse_run name st :
  _use_warehouse name st =
    (match warehouse (journal st) (Execute ("use warehouse " +:+ name) false) with
     | Return _ => Return tt
     | Raise exc => Raise exc
     end,
     journal_add st [(Execute ("use warehouse " +:+ name) false,
                      warehouse (journal st) (Execute ("use warehouse " +:+ name) false))]).
Proof.
  unfold _use_warehouse, execute. rewrite bind_run, send_run.
  by destruct (warehouse (journal st) _).
Qed.

(** C9: when the requested warehouse is the session default or is not
    given, the entry hook returns no saved context and sends nothing.
    Otherwise it first asks for the active warehouse; once that is
    answered with a value it sends the switch to the requested warehouse
    and, the switch done, returns the warehouse that was active. The exit
    hook sends the switch back to the saved warehouse when there is one
    and sends nothing when there is none. *)
Theorem model_hooks_switch_and_restore
    (default_warehouse : option string) (config : gmap string (option string))
    (st : State) :
  let requested := default default_warehouse (config !! "snowflake_warehouse") in
  (requested = default_warehouse ∨ requested = None →
     pre_model_hook default_warehouse config st = (Return None, st)) ∧
  (∀ name, requested = Some name → requested ≠ default_warehouse →
     (∃ answer later,
        journal (pre_model_hook default_warehouse config st).2
          = journal st ++ (current_warehouse_query, answer) :: later) ∧
     ∀ table previous row rows empty,
       warehouse (journal st) current_warehouse_query = Return table →
       agate.rows table = (previous :: row) :: rows →
       let switch := Execute ("use warehouse " +:+ name) false in
       let st1 := journal_add st [(current_warehouse_query, Return table)] in
       warehouse (journal st1) switch = Return empty →
       pre_model_hook default_warehouse config st
         = (Return (Some previous), journal_add st1 [(switch, Return empty)])) ∧
  post_model_hook config None st = (Return tt, st) ∧
  (∀ saved,
     let switch := Execute ("use warehouse " +:+ saved) false in
     post_model_hook config (Some saved) st
       = (match warehouse (journal st) switch with
          | Return _ => Return tt
          | Raise exc => Raise exc
          end,
          journal_add st [(switch, warehouse (journal st) switch)])).
Proof.
  intros requested. split_and!.
  - intros Hsame. unfold pre_model_hook. fold requested.
    destruct Hsame as [-> | ->].
    + by rewrite bool_decide_eq_true_2.
    + rewrite (bool_decide_eq_true_2 (None = None)) by done.
      by rewrite orb_true_r.
  - intros name Hreq Hne. unfold pre_model_hook. fold requested.
    rewrite (bool_decide_eq_false_2 _ Hne), Hreq. simpl.
    split.
    + rewrite bind_run, get_warehouse_run.
      destruct (warehouse (journal st) current_warehouse_query) as [table|exc];
        [| by eexists _, []].
      destruct (agate.rows table) as [|[|value row] rows]; try by eexists _, [].
      rewrite bind_run, use_warehouse_run.
      destruct (warehouse _ (Execute ("use warehouse " +:+ name) false)); simpl;
        rewrite <- app_assoc; by eexists _, [_].
    + intros table previous row rows empty Htable Hrows Hswitch.
      rewrite bind_run, get_warehouse_run, Htable, Hrows.
      rewrite bind_run, use_warehouse_run, journal_journal_add.
      by rewrite Hswitch.
  - reflexivity.
  - intros saved switch. unfold post_model_hook.
    by rewrite use_warehouse_run.
Qed.

(** C10: the requested warehouse is compared with the session default as
    it is written, so the entry hook stays idle only for the very same
    string; any other name, one that differs from the default in letter
    case only included, starts the cycle: the query for the active
    warehouse, then the switch, whose statement holds the name as it was
    given, unquoted and unfolded, and, the switch done, the warehouse the
    query reported handed back as the context. The exit hook given a saved
    warehouse sends the switch back to it, named as it was saved, and
    nothing else. *)
Theorem warehouse_name_is_compared_and_sent_verbatim
    (default_warehouse name : string) (config : gmap string (option string))
    (st : State) :
  config !! "snowflake_warehouse" = Some (Some name) →
  (pre_model_hook (Some default_warehouse) config st = (Return None, st)
     ↔ name = default_warehouse) ∧
  (name ≠ default_warehouse →
     ∃ answer later,
       (pre_model_hook (Some default_warehouse) config st).2
         = journal_add st ((current_warehouse_query, answer) :: later) ∧
       ∀ table previous row rows,
         answer = Return table → agate.rows table = (previous :: row) :: rows →
         ∃ outcome,
           later = [(Execute ("use warehouse " +:+ name) false, outcome)] ∧
           (pre_model_hook (Some default_warehouse) config st).1
             = match outcome with
               | Return _ => Return (Some previous)
               | Raise exc => Raise exc
               end) ∧
  (∀ saved st2,
     let switch := Execute ("use warehouse " +:+ saved) false in
     post_model_hook config (Some saved) st2
       = (match warehouse (journal st2) switch with
          | Return _ => Return tt
          | Raise exc => Raise exc
          end,
          journal_add st2 [(switch, warehouse (journal st2) switch)])).
Proof.
  intros Hconfig.
  assert (name ≠ default_warehouse →
     ∃ answer later,
       (pre_model_hook (Some default_warehouse) config st).2
         = journal_add st ((current_warehouse_query, answer) :: later) ∧
       ∀ table previous row rows,
         answer = Return table → agate.rows table = (previous :: row) :: rows →
         ∃ outcome,
           later = [(Execute ("use warehouse " +:+ name) false, outcome)] ∧
           (pre_model_hook (Some default_warehouse) config st).1
             = match outcome with
               | Return _ => Return (Some previous)
               | Raise exc => Raise exc
               end)
    as Hcycle.
  { intros Hne. unfold pre_model_hook. rewrite Hconfig. simpl.
    rewrite bool_decide_eq_false_2 by congruence. simpl.
    rewrite bind_run, get_warehouse_run.
    destruct (warehouse (journal st) current_warehouse_query) as [table|exc] eqn:Hanswer.
    - destruct (agate.rows table) as [|[|value row] rows] eqn:Hrows.
      + exists (Return table), []. split; [done |]. intros ???? [= <-]. congruence.
      + exists (Return table), []. split; [done |]. intros ???? [= <-]. congruence.
      + rewrite bind_run, use_warehouse_run.
        rewrite journal_journal_add.
        set (st1 := journal st ++ [(current_warehouse_query, Return table)]).
        set (switch := Execute ("use warehouse " +:+ name) false).
        exists (Return table), [(switch, warehouse st1 switch)]. split.
        * destruct (warehouse st1 switch); unfold journal_add; simpl;
            by rewrite <- app_assoc.
        * intros table' previous row' rows' [= <-] Hrows'.
          rewrite Hrows in Hrows'. injection Hrows' as <- <- <-.
          exists (warehouse st1 switch). split; [done |].
          by destruct (warehouse st1 switch).
    - exists (Raise exc), []. split; [done |]. by intros. }
  split; [| split; [done |]].
  2: { intros saved st2 switch. unfold post_model_hook. by rewrite use_warehouse_run. }
  split.
  - intros Hidle. destruct (decide (name = default_warehouse)) as [|Hne]; [done |].
    destruct (Hcycle Hne) as (answer & later & Hstate & _).
    rewrite Hidle in Hstate. simpl in Hstate.
    apply (f_equal (λ st, length (journal st))) in Hstate.
    rewrite journal_journal_add, length_app in Hstate.
    simpl in Hstate. lia.
  - intros ->. unfold pre_model_hook. rewrite Hconfig. simpl.
    by rewrite bool_decide_eq_true_2.
Qed.

(** ** Failures of the listing calls *)

(** C7: listing the relations of a schema answers with no relations when
    the query fails with a database error that says "Object does not
    exist", and the column lookup answers with no columns when the
    database error says "does not exist or not authorized"; every other
    failure of either call goes up unchanged. *)
Theorem not_found_failures_are_suppressed
    (schema_relation relation : Relation) (st : State) :
  let listing := ExecuteMacro LIST_RELATIONS_MACRO_NAME
                   {["schema_relation" := ArgRelation schema_relation]} in
  (∀ exc, warehouse (journal st) listing = Raise exc →
     let st' := journal_add st [(listing, Raise exc)] in
     (∀ before after,
        exc = DatabaseException (before +:+ "Object does not exist" +:+ after) →
        list_relations_without_caching schema_relation st = (Return [], st')) ∧
     ((∀ before after,
         exc ≠ DatabaseException (before +:+ "Object does not exist" +:+ after)) →
        list_relations_without_caching schema_relation st = (Raise exc, st'))) ∧
  (∀ exc st', super_get_columns_in_relation relation st = (Raise exc, st') →
     (∀ before after,
        exc = DatabaseException (before +:+ "does not exist or not authorized" +:+ after) →
        get_columns_in_relation relation st = (Return [], st')) ∧
     ((∀ before after,
         exc ≠ DatabaseException (before +:+ "does not exist or not authorized" +:+ after)) →
        get_columns_in_relation relation st = (Raise exc, st'))).
Proof.
  intros listing. split.
  - intros exc Hreply st'.
    assert (list_relations_without_caching schema_relation st =
              match exc with
              | DatabaseException msg =>
                  if str_in "Object does not exist" msg then (Return [], st')
                  else (Raise exc, st')
              | _ => (Raise exc, st')
              end) as Hrun.
    { unfold list_relations_without_caching, execute_macro.
      rewrite bind_run, try_except_run, bind_run, send_run.
      fold listing. rewrite Hreply. fold st'.
      destruct exc as [msg| |]; try done. simpl.
      by destruct (str_in "Object does not exist" msg). }
    split.
    + intros before after ->. rewrite Hrun. by rewrite str_in_intro.
    + intros Hother. rewrite Hrun. destruct exc as [msg| |]; try done.
      destruct (str_in "Object does not exist" msg) eqn:Hin; [| done].
      apply str_in_elim in Hin as (before & after & ->).
      by destruct (Hother before after).
  - intros exc st' Hsuper.
    assert (get_columns_in_relation relation st =
              match exc with
              | DatabaseException msg =>
                  if str_in "does not exist or not authorized" msg then (Return [], st')
                  else (Raise exc, st')
              | _ => (Raise exc, st')
              end) as Hrun.
    { unfold get_columns_in_relation. rewrite try_except_run, Hsuper.
      destruct exc as [msg| |]; try done. simpl.
      by destruct (str_in "does not exist or not authorized" msg). }
    split.
    + intros before after ->. rewrite Hrun. by rewrite str_in_intro.
    + intros Hother. rewrite Hrun. destruct exc as [msg| |]; try done.
      destruct (str_in "does not exist or not authorized" msg) eqn:Hin; [| done].
      apply str_in_elim in Hin as (before & after & ->).
      by destruct (Hother before after).
Qed.

(** ** Rows into descriptors *)

Lemma database_object_to_relation_well_formed table row i_database i_schema i_name i_kind :
  agate.well_formed table = true → row ∈ agate.rows table →
  agate.column_names table !! i_database = Some "database_name" →
  agate.column_names table !! i_schema = Some "schema_name" →
  agate.column_names table !! i_name = Some "name" →
  agate.column_names table !! i_kind = Some "kind" →
  _database_object_to_relation
      {| agate.keys := agate.column_names table; agate.values := row |}
    = Return (row_descriptor (row !!! i_database) (row !!! i_schema)
                             (row !!! i_name) (row !!! i_kind)).
Proof.
  intros Hwf Hrow Hd Hs Hn Hk. unfold _database_object_to_relation.
  rewrite (getitem_well_formed table row i_kind "kind") by done. simpl.
  rewrite (getitem_well_formed table row i_database "database_name") by done. simpl.
  rewrite (getitem_well_formed table row i_schema "schema_name") by done. simpl.
  rewrite (getitem_well_formed table row i_name "name") by done. simpl.
  unfold row_descriptor.
  by destruct (get_relation_type (lower (row !!! i_kind))).
Qed.

(** The loop of [list_relations_without_caching] over the selected rows. *)
Lemma relations_loop (rows : list (list string)) (f : list string → list string) acc :
  (∀ row, row ∈ rows → ∃ d s n k, f row = [d; s; n; k]) →
  foldl (λ (acc : result (list Relation)) (row : list string),
           relations ← acc;
           match row with
           | [_database; _schema; _identifier; _type] =>
               let _type := match get_relation_type (lower _type) with
                            | Some t => t
                            | None => RelationType.External
                            end in
               Return (relations ++
                         [{| rel_database := Some _database;
                             rel_schema := Some _schema;
                             rel_identifier := Some _identifier;
                             rel_quote_policy :=
                               {| policy_database := true; policy_schema := true;
                                  policy_identifier := true |};
                             rel_type := _type |}])
           | _ => Raise (BuiltinError "ValueError" "unpack")
           end)
        (Return acc) (f <$> rows)
  = Return (acc ++ ((λ row, match f row with
                            | [d; s; n; k] => row_descriptor d s n k
                            | _ => row_descriptor "" "" "" ""
                            end) <$> rows)).
Proof.
  revert acc. induction rows as [|row rows IH]; intros acc Hshape; simpl.
  - by rewrite app_nil_r.
  - destruct (Hshape row) as (d & s & n & k & ->); [left |]. simpl.
    rewrite IH by (intros; apply Hshape; by right).
    rewrite <- app_assoc. simpl. unfold row_descriptor.
    by destruct (get_relation_type (lower k)).
Qed.

(** C6: on a listing that has the four columns, the loop of the per-schema
    listing and the per-row mapping of the bulk listing give the same
    relations, row by row: the descriptor of the row's database_name,
    schema_name, name and kind. Every part of it is quoted, and a row
    whose kind is not a known relation type still maps to a relation, of
    type [External]. *)
Theorem row_mappings_agree
    (schema_relation : Relation) (table : agate.Table) (st : State)
    (i_database i_schema i_name i_kind : nat) :
  warehouse (journal st)
      (ExecuteMacro LIST_RELATIONS_MACRO_NAME
         {["schema_relation" := ArgRelation schema_relation]}) = Return table →
  agate.well_formed table = true →
  agate.column_names table !! i_database = Some "database_name" →
  agate.column_names table !! i_schema = Some "schema_name" →
  agate.column_names table !! i_name = Some "name" →
  agate.column_names table !! i_kind = Some "kind" →
  let descriptors :=
    (λ row : list string,
       row_descriptor (row !!! i_database) (row !!! i_schema)
                      (row !!! i_name) (row !!! i_kind)) <$> agate.rows table in
  (list_relations_without_caching schema_relation st).1 = Return descriptors ∧
  collect _database_object_to_relation (agate.iter table) = Return descriptors ∧
  Forall (λ relation,
            rel_quote_policy relation =
              {| policy_database := true; policy_schema := true;
                 policy_identifier := true |}) descriptors ∧
  (∀ row kind,
     row ∈ agate.iter table →
     agate.getitem row "kind" = Return kind →
     get_relation_type (lower kind) = None →
     ∃ relation,
       _database_object_to_relation row = Return relation ∧
       relation ∈ descriptors ∧
       rel_type relation = RelationType.External).
Proof.
  intros Hreply Hwf Hd Hs Hn Hk descriptors. split_and!.
  - unfold list_relations_without_caching, execute_macro.
    rewrite bind_run, try_except_run, bind_run, send_run, Hreply. simpl.
    rewrite bind_run. unfold lift at 1.
    rewrite (select_well_formed table _ [i_database; i_schema; i_name; i_kind]);
      [| done | by repeat constructor].
    unfold lift. simpl.
    rewrite relations_loop by (intros; by eexists _, _, _, _).
    done.
  - unfold agate.iter. rewrite (collect_fmap _
      (λ row, row_descriptor (agate.values row !!! i_database) (agate.values row !!! i_schema)
                             (agate.values row !!! i_name) (agate.values row !!! i_kind))).
    + by rewrite <- list_fmap_compose.
    + intros row (values & -> & Hvalues)%list_elem_of_fmap. simpl.
      by eapply database_object_to_relation_well_formed.
  - subst descriptors. apply Forall_fmap, Forall_true. by intros row.
  - intros row kind (values & -> & Hvalues)%list_elem_of_fmap Hkind Hunknown.
    rewrite (getitem_well_formed table values i_kind "kind") in Hkind by done.
    injection Hkind as <-.
    eexists. split_and!.
    + by eapply database_object_to_relation_well_formed.
    + subst descriptors. apply list_elem_of_fmap. by exists values.
    + unfold row_descriptor. simpl. by rewrite Hunknown.
Qed.

(** ** Schemas of a database *)

Lemma list_schemas_run database st :
  let listing := ExecuteMacro LIST_SCHEMAS_MACRO_NAME {["database" := ArgStr database]} in
  list_schemas database st =
    (match warehouse (journal st) listing with
     | Return results => collect (λ row, agate.getitem row "name") (agate.iter results)
     | Raise (DatabaseException msg) =>
         Raise (RuntimeException
                  ("Database error while listing schemas in database "
                   +:+ dquote +:+ database +:+ dquote +:+ newline +:+ msg))
     | Raise exc => Raise exc
     end,
     journal_add st [(listing, warehouse (journal st) listing)]).
Proof.
  intros listing. unfold list_schemas, execute_macro.
  rewrite bind_run, try_except_run, send_run. fold listing.
  by destruct (warehouse (journal st) listing) as [results|[msg| |]].
Qed.

(** ** The bulk loader *)

Lemma relations_cache_for_schemas_unfold manifest :
  _relations_cache_for_schemas manifest =
    (let cache_schemas := _get_cache_schemas manifest in
     let '(schema_databases, cache_schema_names) :=
       foldl (λ (sets : gset string * gset string) cache_schema,
                (sets.1 ∪ {[database cache_schema]},
                 sets.2 ∪ {[lower (schema cache_schema)]}))
             (∅, ∅) cache_schemas in
     for_each (set_iter schema_databases) (load_database cache_schema_names) ;;
     let cache_update : gset SchemaKey :=
       foldl (λ (acc : gset SchemaKey) relation,
                acc ∪ {[(Some (database relation), Some (schema relation))]})
             ∅ cache_schemas in
     modify_cache (cache.update_schemas cache_update)).
Proof. reflexivity. Qed.

Lemma for_each_cons {A} (x : A) xs body st :
  for_each (x :: xs) body st =
    match body x st with
    | (Return _, st') => for_each xs body st'
    | (Raise exc, st') => (Raise exc, st')
    end.
Proof. reflexivity. Qed.

(** What the sets built by the first loop hold. *)
Lemma requested_sets (cache_schemas : list SchemaRelation) (acc : gset string * gset string) :
  foldl (λ (sets : gset string * gset string) cache_schema,
           (sets.1 ∪ {[database cache_schema]},
            sets.2 ∪ {[lower (schema cache_schema)]}))
        acc cache_schemas
  = (acc.1 ∪ list_to_set (database <$> cache_schemas),
     acc.2 ∪ list_to_set ((λ c, lower (schema c)) <$> cache_schemas)).
Proof.
  revert acc. induction cache_schemas as [|c cs IH]; intros [dbs names]; simpl.
  - by rewrite !(right_id_L ∅ (∪)).
  - rewrite IH. simpl. by rewrite !(assoc_L (∪)).
Qed.

Lemma requested_pairs (cache_schemas : list SchemaRelation) (acc : gset SchemaKey) :
  foldl (λ (acc : gset SchemaKey) relation,
           acc ∪ {[(Some (database relation), Some (schema relation))]})
        acc cache_schemas
  = acc ∪ list_to_set ((λ c, (Some (database c), Some (schema c))) <$> cache_schemas).
Proof.
  revert acc. induction cache_schemas as [|c cs IH]; intros acc; simpl.
  - by rewrite (right_id_L ∅ (∪)).
  - rewrite IH. by rewrite (assoc_L (∪)).
Qed.

Lemma extends_nil names c : extends names [] c c.
Proof.
  split_and!; [done | done | by left |].
  intros row r Hrow. by apply elem_of_nil in Hrow.
Qed.

Lemma extends_app names rows1 rows2 c c1 c2 :
  extends names rows1 c c1 → extends names rows2 c1 c2 →
  extends names (rows1 ++ rows2) c c2.
Proof.
  intros (Hk1 & Hd1 & Hfrom1 & Hin1) (Hk2 & Hd2 & Hfrom2 & Hin2).
  split_and!.
  - by transitivity (knownSchemas c1).
  - by transitivity (dom (relationsByKey c1)).
  - intros k r Hr. destruct (Hfrom2 k r Hr) as [Hr1 | (row & Hrow & Hload & Hkey)].
    + destruct (Hfrom1 k r Hr1) as [Hr0 | (row & Hrow & Hload & Hkey)]; [by left |].
      right. exists row. rewrite elem_of_app. auto.
    + right. exists row. rewrite elem_of_app. auto.
  - intros row r [Hrow|Hrow]%elem_of_app Hload.
    + apply Hd2. by eapply Hin1.
    + by eapply Hin2.
Qed.

Lemma extends_add names row r c :
  loaded names row r → extends names [row] c (cache.add r c).
Proof.
  intros Hload. unfold cache.add. split_and!; simpl.
  - apply union_subseteq_l.
  - rewrite dom_insert_L. apply union_subseteq_r.
  - intros k r' Hr'. destruct (decide (relation_key r = k)) as [<-|Hne].
    + rewrite lookup_insert_eq in Hr'. injection Hr' as <-.
      right. exists row. split; [by left | done].
    + rewrite lookup_insert_ne in Hr' by done. by left.
  - intros row' r' ->%list_elem_of_singleton (sn' & _ & _ & Hrel').
    destruct Hload as (sn & _ & _ & Hrel).
    rewrite Hrel in Hrel'. injection Hrel' as <-.
    rewrite dom_insert_L. apply elem_of_union_l. by apply elem_of_singleton.
Qed.

Lemma extends_skip names row c :
  (∀ r, ¬ loaded names row r) → extends names [row] c c.
Proof.
  intros Hnot. split_and!; [done | done | by left |].
  intros row' r ->%list_elem_of_singleton Hload. by destruct (Hnot r).
Qed.

Lemma load_row_run names row st :
  load_row names row st =
    match agate.getitem row "schema_name" with
    | Raise exc => (Raise exc, st)
    | Return schema_name =>
        if bool_decide (lower schema_name ∈ names) then
          match _database_object_to_relation row with
          | Return relation =>
              (Return tt, {| relations_cache := cache.add relation (relations_cache st);
                             journal := journal st |})
          | Raise exc => (Raise exc, st)
          end
        else (Return tt, st)
    end.
Proof.
  unfold load_row. rewrite bind_run. unfold lift at 1.
  destruct (agate.getitem row "schema_name") as [schema_name|exc]; [| done].
  case_bool_decide; [| done].
  rewrite bind_run. unfold lift.
  by destruct (_database_object_to_relation row).
Qed.

(** The loop over the rows of one listing sends nothing, and when it ends
    the cache has grown by the rows that were loaded. *)
Lemma load_rows_run names rows st outcome st' :
  for_each rows (load_row names) st = (outcome, st') →
  journal st' = journal st ∧
  (outcome = Return tt →
   extends names rows (relations_cache st) (relations_cache st')).
Proof.
  revert st. induction rows as [|row rows IH]; intros st Hrun.
  - injection Hrun as <- <-. split; [done |]. intros _. apply extends_nil.
  - rewrite for_each_cons, load_row_run in Hrun.
    destruct (agate.getitem row "schema_name") as [schema_name|exc] eqn:Hname.
    2: { injection Hrun as <- <-. done. }
    case_bool_decide as Hin.
    + destruct (_database_object_to_relation row) as [relation|exc] eqn:Hrel.
      2: { injection Hrun as <- <-. done. }
      destruct (IH _ Hrun) as [Hjournal Hext]. split; [done |].
      intros Hok. apply (extends_app names [row] rows _ _ _ (extends_add names row relation _ ltac:(by exists schema_name)) (Hext Hok)).
    + destruct (IH _ Hrun) as [Hjournal Hext]. split; [done |].
      intros Hok. apply (extends_app names [row] rows _ (relations_cache st)); [| by apply Hext].
      apply extends_skip. intros r (sn & Hsn & Hin' & _). congruence.
Qed.

Lemma load_database_run names database st :
  load_database names database st =
    match warehouse (journal st) (objects_listing database) with
    | Return results =>
        for_each (agate.iter results) (load_row names)
          (journal_add st [(objects_listing database, Return results)])
    | Raise (DatabaseException msg) =>
        (Raise (RuntimeException (listing_failure "objects" database msg)),
         journal_add st [(objects_listing database, Raise (DatabaseException msg))])
    | Raise exc => (Raise exc, journal_add st [(objects_listing database, Raise exc)])
    end.
Proof.
  unfold load_database, execute_macro.
  rewrite bind_run, try_except_run, send_run. fold (objects_listing database).
  by destruct (warehouse (journal st) (objects_listing database)) as [results|[msg| |]].
Qed.

Lemma listed_rows_cons request answer exchanges :
  listed_rows ((request, answer) :: exchanges) =
    match answer with
    | Return table => agate.iter table
    | Raise _ => []
    end ++ listed_rows exchanges.
Proof. reflexivity. Qed.

Lemma elem_of_listed_rows row exchanges :
  row ∈ listed_rows exchanges ↔
  ∃ request table, (request, Return table) ∈ exchanges ∧ row ∈ agate.iter table.
Proof.
  unfold listed_rows. rewrite list_elem_of_bind. split.
  - intros ([request [table|exc]] & Hrow & Hin); simpl in Hrow.
    + by exists request, table.
    + by apply elem_of_nil in Hrow.
  - intros (request & table & Hin & Hrow). by exists (request, Return table).
Qed.

(** The loop over the databases: what it sends, and what it leaves in the
    cache when it ends; where it stops when it does not. *)
Lemma load_databases_run names databases st outcome st' :
  for_each databases (load_database names) st = (outcome, st') →
  ∃ new, journal st' = journal st ++ new ∧
    match outcome with
    | Return _ =>
        new.*1 = objects_listing <$> databases ∧ Forall answered new ∧
        extends names (listed_rows new) (relations_cache st) (relations_cache st')
    | Raise exc =>
        ∃ visited database rest earlier answer,
          databases = visited ++ database :: rest ∧
          new = earlier ++ [(objects_listing database, answer)] ∧
          earlier.*1 = objects_listing <$> visited ∧ Forall answered earlier ∧
          (∀ msg, answer = Raise (DatabaseException msg) →
                  exc = RuntimeException (listing_failure "objects" database msg))
    end.
Proof.
  revert st. induction databases as [|database databases IH]; intros st Hrun.
  - injection Hrun as <- <-. exists []. rewrite app_nil_r.
    split_and!; [done | done | constructor | apply extends_nil].
  - rewrite for_each_cons, load_database_run in Hrun.
    destruct (warehouse (journal st) (objects_listing database)) as [results|exc] eqn:Hanswer.
    + destruct (for_each (agate.iter results) (load_row names) _) as [[[]|exc] st1] eqn:Hrows;
        apply load_rows_run in Hrows as [Hjournal Hext].
      * apply IH in Hrun as (new & Hnew & Hrest).
        exists ((objects_listing database, Return results) :: new). split.
        { rewrite Hnew, Hjournal, journal_journal_add, <- app_assoc. done. }
        destruct outcome as [[]|exc].
        -- destruct Hrest as (Hsent & Hanswered & Hext').
           split_and!.
           ++ rewrite !fmap_cons. by rewrite Hsent.
           ++ constructor; [by exists results | done].
           ++ rewrite listed_rows_cons. eapply extends_app; [by apply Hext | done].
        -- destruct Hrest as (visited & d & rest & earlier & answer & -> & -> & Hsent & Hanswered & Hwrap).
           exists (database :: visited), d, rest,
                  ((objects_listing database, Return results) :: earlier), answer.
           split_and!; [done | done | rewrite !fmap_cons; by rewrite Hsent | | done].
           constructor; [by exists results | done].
      * injection Hrun as <- <-.
        exists [(objects_listing database, Return results)]. split; [done |].
        exists [], database, databases, [], (Return results).
        split_and!; [done | done | done | constructor | done].
    + exists [(objects_listing database, Raise exc)].
      assert (outcome = Raise (match exc with
                               | DatabaseException msg =>
                                   RuntimeException (listing_failure "objects" database msg)
                               | _ => exc
                               end) ∧
              st' = journal_add st [(objects_listing database, Raise exc)]) as [-> ->].
      { destruct exc; by injection Hrun as <- <-. }
      split; [done |].
      exists [], database, databases, [], (Raise exc).
      split_and!; [done | done | done | constructor |].
      by intros msg [= ->].
Qed.

Lemma objects_listing_inj : Inj (=) (=) objects_listing.
Proof.
  intros d d' Heq.
  assert (∀ r r', r = r' →
            match r, r' with
            | ExecuteMacro _ kw, ExecuteMacro _ kw' => kw !! "database" = kw' !! "database"
            | _, _ => True
            end) as Hkw by (by intros r r' ->; destruct r').
  specialize (Hkw _ _ Heq). simpl in Hkw.
  rewrite !lookup_singleton_eq in Hkw. congruence.
Qed.

Lemma set_iter_NoDup X : NoDup (set_iter X).
Proof using set_iter_perm. rewrite set_iter_perm. apply NoDup_elements. Qed.

Lemma elem_of_set_iter x X : x ∈ set_iter X ↔ x ∈ X.
Proof using set_iter_perm. rewrite set_iter_perm. apply elem_of_elements. Qed.

(** The whole of [_relations_cache_for_schemas]: the loop over the
    databases of the requested schemas, then the marking of the pairs. *)
Lemma relations_cache_for_schemas_run manifest st :
  let requested := _get_cache_schemas manifest in
  let databases := set_iter (list_to_set (database <$> requested)) in
  let names : gset string := list_to_set ((λ c, lower (schema c)) <$> requested) in
  let pairs : gset SchemaKey :=
    list_to_set ((λ c, (Some (database c), Some (schema c))) <$> requested) in
  _relations_cache_for_schemas manifest st =
    match for_each databases (load_database names) st with
    | (Return _, st1) =>
        (Return tt, {| relations_cache := cache.update_schemas pairs (relations_cache st1);
                       journal := journal st1 |})
    | (Raise exc, st1) => (Raise exc, st1)
    end.
Proof.
  intros requested databases names pairs.
  rewrite relations_cache_for_schemas_unfold. cbv zeta.
  rewrite requested_sets, requested_pairs. simpl.
  rewrite !(left_id_L ∅ (∪)). rewrite bind_run.
  fold requested. fold databases. fold names. fold pairs.
  by destruct (for_each databases (load_database names) st) as [[[]|exc] st1].
Qed.

(** C1 (amended): when bulk population ends, it has sent one object listing
    for each distinct database name among the requested schemas and no
    other request; and a relation key is in the cache exactly when it was
    there before or it is the key of a listed row whose schema name,
    lower-cased, is the lower-cased schema name of a requested schema,
    of whichever database. *)
Theorem bulk_population_lists_each_database_once
    (manifest : Manifest) (st st' : State) :
  _relations_cache_for_schemas manifest st = (Return tt, st') →
  let requested := _get_cache_schemas manifest in
  ∃ new,
    journal st' = journal st ++ new ∧
    NoDup new.*1 ∧
    (∀ sent, sent ∈ new.*1 ↔
             ∃ c, c ∈ requested ∧ sent = objects_listing (database c)) ∧
    (∀ key, key ∈ dom (relationsByKey (relations_cache st')) ↔
            key ∈ dom (relationsByKey (relations_cache st)) ∨
            ∃ row schema_name relation c,
              row ∈ listed_rows new ∧
              agate.getitem row "schema_name" = Return schema_name ∧
              c ∈ requested ∧ lower schema_name = lower (schema c) ∧
              _database_object_to_relation row = Return relation ∧
              relation_key relation = key).
Proof using set_iter_perm.
  intros Hrun requested. rewrite relations_cache_for_schemas_run in Hrun.
  fold requested in Hrun.
  destruct (for_each _ _ st) as [[[]|exc] st1] eqn:Hloop; [| done].
  injection Hrun as <-.
  apply load_databases_run in Hloop as (new & Hjournal & Hsent & _ & Hext).
  destruct Hext as (_ & Hdom & Hfrom & Hin).
  exists new. simpl. split_and!.
  - done.
  - rewrite Hsent.
    apply (@NoDup_fmap_2 _ _ objects_listing objects_listing_inj), set_iter_NoDup.
  - intros sent. rewrite Hsent, list_elem_of_fmap. split.
    + intros (d & -> & Hd). rewrite elem_of_set_iter, elem_of_list_to_set in Hd.
      apply list_elem_of_fmap in Hd as (c & -> & Hc). by exists c.
    + intros (c & Hc & ->). exists (database c). split; [done |].
      rewrite elem_of_set_iter, elem_of_list_to_set. by apply list_elem_of_fmap_2.
  - intros key. split.
    + intros [r Hr]%elem_of_dom.
      destruct (Hfrom key r Hr) as [Hold | (row & Hrow & Hload & Hkey)].
      * left. by apply elem_of_dom.
      * right. destruct Hload as (schema_name & Hname & Hnames & Hrel).
        apply elem_of_list_to_set, list_elem_of_fmap in Hnames as (c & Hlower & Hc).
        by exists row, schema_name, r, c.
    + intros [Hold | (row & schema_name & relation & c & Hrow & Hname & Hc & Hlower & Hrel & <-)].
      * by apply Hdom.
      * apply (Hin row relation Hrow). exists schema_name. split_and!; [done | | done].
        rewrite Hlower. apply elem_of_list_to_set.
        by apply (list_elem_of_fmap_2 (λ c, lower (schema c))).
Qed.

Lemma set_relations_cache_run manifest clear st :
  set_relations_cache manifest clear st =
    _relations_cache_for_schemas manifest
      {| relations_cache := if clear then cache.clear (relations_cache st)
                            else relations_cache st;
         journal := journal st |}.
Proof. unfold set_relations_cache. rewrite bind_run. by destruct clear, st. Qed.


(** C8: [list_schemas] sends its listing once; a database error in reply
    becomes a runtime failure whose message holds the database name and
    the text of the database error, and a table in reply is read down its
    "name" column. In bulk population a database error in reply to the
    listing of a database ends the run with the same kind of failure: that
    listing is the last request of the run, and it was sent once. *)
Theorem listing_failures_are_wrapped
    (database : string) (st0 : State)
    (manifest : Manifest) (st st' : State) (outcome : result unit) :
  let listing := ExecuteMacro LIST_SCHEMAS_MACRO_NAME {["database" := ArgStr database]} in
  (list_schemas database st0).2
    = journal_add st0 [(listing, warehouse (journal st0) listing)] ∧
  (∀ msg, warehouse (journal st0) listing = Raise (DatabaseException msg) →
     let failure := listing_failure "schemas" database msg in
     (list_schemas database st0).1 = Raise (RuntimeException failure) ∧
     str_in database failure = true ∧ str_in msg failure = true) ∧
  (∀ results, warehouse (journal st0) listing = Return results →
     (list_schemas database st0).1
       = collect (λ row, agate.getitem row "name") (agate.iter results) ∧
     ∀ i, agate.well_formed results = true →
          agate.column_names results !! i = Some "name" →
          (list_schemas database st0).1
            = Return ((λ row : list string, row !!! i) <$> agate.rows results)) ∧
  (_relations_cache_for_schemas manifest st = (outcome, st') →
   ∀ failed msg,
     (objects_listing failed, Raise (DatabaseException msg))
       ∈ drop (length (journal st)) (journal st') →
     let failure := listing_failure "objects" failed msg in
     outcome = Raise (RuntimeException failure) ∧
     str_in failed failure = true ∧ str_in msg failure = true ∧
     ∃ earlier,
       journal st' = journal st ++ earlier
                       ++ [(objects_listing failed, Raise (DatabaseException msg))] ∧
       objects_listing failed ∉ earlier.*1).
Proof using set_iter_perm.
  intros listing. split_and!.
  - by rewrite list_schemas_run.
  - intros msg Hreply failure. rewrite list_schemas_run. fold listing.
    rewrite Hreply. split_and!; [done | |]; apply listing_failure_carries.
  - intros results Hreply. rewrite list_schemas_run. fold listing.
    rewrite Hreply. split; [done |]. intros i Hwf Hi. simpl.
    unfold agate.iter.
    rewrite (collect_fmap _ (λ row, agate.values row !!! i)).
    + by rewrite <- list_fmap_compose.
    + intros row (values & -> & Hvalues)%list_elem_of_fmap.
      by apply getitem_well_formed.
  - intros Hrun failed msg Hfailed failure.
    rewrite relations_cache_for_schemas_run in Hrun.
    destruct (for_each _ _ st) as [loop st1] eqn:Hloop.
    apply load_databases_run in Hloop as (new & Hjournal & Hshape).
    assert (journal st' = journal st ++ new) as Hjournal'.
    { destruct loop as [[]|exc]; by injection Hrun as <- <-. }
    rewrite Hjournal', drop_app_length in Hfailed.
    destruct loop as [[]|exc].
    { destruct Hshape as (_ & Hanswered & _).
      rewrite Forall_forall in Hanswered.
      by destruct (Hanswered _ Hfailed) as [table ?]. }
    injection Hrun as <- <-.
    destruct Hshape as
      (visited & d & rest & earlier & answer & Hdbs & -> & Hsent & Hanswered & Hwrap).
    apply elem_of_app in Hfailed as [Hearlier | Hlast%list_elem_of_singleton].
    { rewrite Forall_forall in Hanswered.
      by destruct (Hanswered _ Hearlier) as [table ?]. }
    assert (objects_listing failed = objects_listing d ∧
            Raise (DatabaseException msg) = answer) as [Hd <-]
      by (split; congruence).
    apply objects_listing_inj in Hd as <-.
    split_and!.
    + f_equal. by apply Hwrap.
    + apply listing_failure_carries.
    + apply listing_failure_carries.
    + exists earlier. split; [by rewrite Hjournal |].
      rewrite Hsent. intros (d & Hd & Hvisited)%list_elem_of_fmap.
      apply objects_listing_inj in Hd as <-.
      assert (NoDup (visited ++ failed :: rest)) as Hnodup
        by (rewrite <- Hdbs; apply set_iter_NoDup).
      apply NoDup_app in Hnodup as (_ & Hfresh & _).
      apply (Hfresh failed Hvisited). by left.
Qed.

(** * Further properties *)

(** ** When two triples match *)

(** X1: two triples get the same match arguments exactly when their
    quoted parts are equal and their unquoted parts are equal up to the
    case of their letters; an absent part only matches an absent part. *)
Theorem make_match_kwargs_eq_iff
    (quoting : Quoting) (d1 s1 i1 d2 s2 i2 : option string) :
  _make_match_kwargs quoting d1 s1 i1 = _make_match_kwargs quoting d2 s2 i2 ↔
  (if quoting_database quoting then d1 = d2 else upper <$> d1 = upper <$> d2) ∧
  (if quoting_schema quoting then s1 = s2 else upper <$> s1 = upper <$> s2) ∧
  (if quoting_identifier quoting then i1 = i2 else upper <$> i1 = upper <$> i2).
Proof.
  split.
  - intros Heq.
    pose proof (f_equal (λ m : gmap string string, m !! "database") Heq) as Hd.
    pose proof (f_equal (λ m : gmap string string, m !! "schema") Heq) as Hs.
    pose proof (f_equal (λ m : gmap string string, m !! "identifier") Heq) as Hi.
    simpl in Hd, Hs, Hi. rewrite !make_match_kwargs_lookup in Hd, Hs, Hi.
    repeat case_decide; try done.
    by destruct quoting as [[] [] []].
  - intros (Hd & Hs & Hi). apply map_eq. intros k.
    rewrite !make_match_kwargs_lookup.
    repeat case_decide; try done; by destruct quoting as [[] [] []].
Qed.

(** ** The warehouse hook, when things go wrong and when they go right *)

Lemma journal_add_nothing st : journal_add st [] = st.
Proof. destruct st. unfold journal_add. simpl. by rewrite app_nil_r. Qed.

Lemma pre_model_hook_switching default_warehouse config name st :
  default default_warehouse (config !! "snowflake_warehouse") = Some name →
  Some name ≠ default_warehouse →
  pre_model_hook default_warehouse config st =
    (previous ← _get_warehouse; _use_warehouse name ;; mret (Some previous)) st.
Proof.
  intros Hname Hne. unfold pre_model_hook. rewrite Hname.
  rewrite (bool_decide_eq_false_2 _ Hne). simpl. done.
Qed.

(** X2: how the entry hook fails for a model that asks for a warehouse
    of its own. If the query for the active warehouse is answered with no
    row, or with a row of no cell, [_get_warehouse] raises "Could not get
    current warehouse: no results"; if the query raises, that exception
    goes up. Either way the entry hook raises the same, having sent the
    query and no switch. If the query is answered and the switch raises,
    the hook raises that exception, having sent both. *)
Theorem no_active_warehouse_no_switch
    (default_warehouse : option string) (config : gmap string (option string))
    (name : string) (st : State) :
  default default_warehouse (config !! "snowflake_warehouse") = Some name →
  Some name ≠ default_warehouse →
  let answer := warehouse (journal st) current_warehouse_query in
  let st' := journal_add st [(current_warehouse_query, answer)] in
  (∀ table, answer = Return table →
     agate.rows table = [] ∨ (∃ rows, agate.rows table = [] :: rows) →
     let failure := RuntimeException "Could not get current warehouse: no results" in
     _get_warehouse st = (Raise failure, st') ∧
     pre_model_hook default_warehouse config st = (Raise failure, st')) ∧
  (∀ exc, answer = Raise exc →
     _get_warehouse st = (Raise exc, st') ∧
     pre_model_hook default_warehouse config st = (Raise exc, st')) ∧
  (∀ table previous row rows exc,
     answer = Return table →
     agate.rows table = (previous :: row) :: rows →
     let switch := Execute ("use warehouse " +:+ name) false in
     warehouse (journal st') switch = Raise exc →
     pre_model_hook default_warehouse config st
       = (Raise exc, journal_add st' [(switch, Raise exc)])).
Proof.
  intros Hname Hne answer st'. split_and!.
  - intros table Hanswer Hempty failure.
    assert (_get_warehouse st = (Raise failure, st')) as Hget.
    { rewrite get_warehouse_run. fold answer. fold st'. rewrite Hanswer.
      by destruct Hempty as [-> | [rows ->]]. }
    split; [done |].
    by rewrite (pre_model_hook_switching _ _ name), bind_run, Hget.
  - intros exc Hanswer.
    assert (_get_warehouse st = (Raise exc, st')) as Hget.
    { rewrite get_warehouse_run. fold answer. fold st'. by rewrite Hanswer. }
    split; [done |].
    by rewrite (pre_model_hook_switching _ _ name), bind_run, Hget.
  - intros table previous row rows exc Hanswer Hrows switch Hswitch.
    rewrite (pre_model_hook_switching _ _ name) by done.
    rewrite bind_run, get_warehouse_run. fold answer. fold st'.
    rewrite Hanswer, Hrows, bind_run, use_warehouse_run.
    fold switch. by rewrite Hswitch.
Qed.

(** X3: the two hooks as a pair. When the entry hook returns no context it
    has sent nothing, and the exit hook given that context sends nothing
    either. When it returns a context, it has sent the query and the
    switch to the requested warehouse, both answered, the context is the
    first cell of the query's answer, and the exit hook given that
    context sends one statement, the switch back to that very warehouse. *)
Theorem hooks_restore_what_the_session_reported
    (default_warehouse : option string) (config : gmap string (option string))
    (st st1 : State) (context : option string) :
  pre_model_hook default_warehouse config st = (Return context, st1) →
  match context with
  | None =>
      st1 = st ∧ ∀ st2, post_model_hook config context st2 = (Return tt, st2)
  | Some previous =>
      ∃ name table row rows empty,
        default default_warehouse (config !! "snowflake_warehouse") = Some name ∧
        Some name ≠ default_warehouse ∧
        st1 = journal_add st
                [(current_warehouse_query, Return table);
                 (Execute ("use warehouse " +:+ name) false, Return empty)] ∧
        agate.rows table = (previous :: row) :: rows ∧
        ∀ st2,
          (post_model_hook config context st2).2
            = journal_add st2
                [(Execute ("use warehouse " +:+ previous) false,
                  warehouse (journal st2) (Execute ("use warehouse " +:+ previous) false))]
  end.
Proof.
  intros Hpre.
  destruct (default default_warehouse (config !! "snowflake_warehouse"))
    as [name|] eqn:Hname.
  - destruct (decide (Some name = default_warehouse)) as [Hsame | Hne].
    + unfold pre_model_hook in Hpre. rewrite Hname in Hpre.
      rewrite (bool_decide_eq_true_2 _ Hsame) in Hpre. simpl in Hpre.
      injection Hpre as <- <-. done.
    + rewrite (pre_model_hook_switching _ _ name) in Hpre by done.
      rewrite bind_run, get_warehouse_run in Hpre.
      destruct (warehouse (journal st) current_warehouse_query) as [table|exc] eqn:Hquery;
        [| done].
      destruct (agate.rows table) as [|[|previous row] rows] eqn:Hrows; try done.
      rewrite bind_run, use_warehouse_run, journal_journal_add in Hpre.
      destruct (warehouse _ (Execute ("use warehouse " +:+ name) false))
        as [empty|exc] eqn:Hswitch; [| done].
      simpl in Hpre. injection Hpre as <- <-.
      exists name, table, row, rows, empty.
      split_and!; [done | done | | done |].
      * unfold journal_add. simpl. by rewrite <- app_assoc.
      * intros st2. unfold post_model_hook. by rewrite use_warehouse_run.
  - unfold pre_model_hook in Hpre. rewrite Hname in Hpre.
    rewrite (bool_decide_eq_true_2 (None = None)) in Hpre by done.
    rewrite orb_true_r in Hpre. injection Hpre as <- <-. done.
Qed.

(** ** What the listings and the hooks leave alone *)

(** X4: listing schemas and listing the relations of a schema each send
    one request, whatever the answer, and leave the relations cache as it
    is; the column lookup adds no effect to that of the parent's; the
    entry hook sends at most two requests and the exit hook at most one,
    and neither touches the cache. *)
Theorem listings_and_hooks_leave_the_cache
    (database : string) (schema_relation relation : Relation)
    (default_warehouse : option string) (config : gmap string (option string))
    (context : option string) (st : State) :
  let schemas := ExecuteMacro LIST_SCHEMAS_MACRO_NAME {["database" := ArgStr database]} in
  let relations := ExecuteMacro LIST_RELATIONS_MACRO_NAME
                     {["schema_relation" := ArgRelation schema_relation]} in
  (list_schemas database st).2
    = journal_add st [(schemas, warehouse (journal st) schemas)] ∧
  (list_relations_without_caching schema_relation st).2
    = journal_add st [(relations, warehouse (journal st) relations)] ∧
  (get_columns_in_relation relation st).2
    = (super_get_columns_in_relation relation st).2 ∧
  (∃ sent, (pre_model_hook default_warehouse config st).2 = journal_add st sent ∧
           length sent ≤ 2) ∧
  (∃ sent, (post_model_hook config context st).2 = journal_add st sent ∧
           length sent ≤ 1).
Proof.
  intros schemas relations. split_and!.
  - by rewrite list_schemas_run.
  - unfold list_relations_without_caching, execute_macro.
    rewrite bind_run, try_except_run, bind_run, send_run. fold relations.
    destruct (warehouse (journal st) relations) as [results|exc].
    + simpl. rewrite bind_run. unfold lift.
      by destruct (agate.select results _).
    + destruct exc as [msg| |]; try done. simpl.
      by destruct (str_in "Object does not exist" msg).
  - unfold get_columns_in_relation. rewrite try_except_run.
    destruct (super_get_columns_in_relation relation st) as [[columns|exc] st'];
      [done |].
    destruct exc as [msg| |]; try done. simpl.
    by destruct (str_in "does not exist or not authorized" msg).
  - destruct (default default_warehouse (config !! "snowflake_warehouse"))
      as [name|] eqn:Hname.
    + destruct (decide (Some name = default_warehouse)) as [Hsame | Hne].
      * exists []. unfold pre_model_hook. rewrite Hname.
        rewrite (bool_decide_eq_true_2 _ Hsame). simpl.
        rewrite journal_add_nothing. split; [done | lia].
      * rewrite (pre_model_hook_switching _ _ name) by done.
        rewrite bind_run, get_warehouse_run.
        destruct (warehouse (journal st) current_warehouse_query) as [table|exc];
          [| eexists [_]; split; [done | simpl; lia]].
        destruct (agate.rows table) as [|[|previous row] rows];
          try (eexists [_]; split; [done | simpl; lia]).
        rewrite bind_run, use_warehouse_run, journal_journal_add.
        set (switch := Execute ("use warehouse " +:+ name) false).
        set (history := journal st ++ [(current_warehouse_query, Return table)]).
        exists [(current_warehouse_query, Return table); (switch, warehouse history switch)].
        split; [| simpl; lia].
        destruct (warehouse history switch); simpl;
          unfold journal_add; simpl; by rewrite <- app_assoc.
    + exists []. unfold pre_model_hook. rewrite Hname.
      rewrite (bool_decide_eq_true_2 (None = None)) by done.
      rewrite orb_true_r, journal_add_nothing. split; [done | simpl; lia].
  - destruct context as [saved|]; simpl.
    + eexists [_]. rewrite use_warehouse_run. split; [done | simpl; lia].
    + exists []. rewrite journal_add_nothing. split; [done | simpl; lia].
Qed.

(** ** Replies that lack a column *)

Lemma getitem_missing row key :
  key ∉ agate.keys row → agate.getitem row key = Raise (BuiltinError "KeyError" key).
Proof.
  intros Hkey. unfold agate.getitem.
  rewrite (not_elem_of_list_to_map_1 _ key); [done |].
  intros ([k v] & -> & Hin)%list_elem_of_fmap.
  apply elem_of_reverse, elem_of_zip_l in Hin. done.
Qed.

Lemma index_missing names key :
  key ∉ names →
  agate.index names key = Raise (BuiltinError "ValueError" "tuple.index(x): x not in tuple").
Proof.
  intros Hkey. unfold agate.index.
  destruct (list_find _ names) as [[i name]|] eqn:Hfind; [| done].
  apply list_find_Some in Hfind as (Hi & -> & _).
  destruct Hkey. apply list_elem_of_lookup. by exists i.
Qed.

Lemma index_raises names key exc :
  agate.index names key = Raise exc →
  exc = BuiltinError "ValueError" "tuple.index(x): x not in tuple".
Proof. unfold agate.index. destruct (list_find _ names) as [[]|]; congruence. Qed.

(** Looking up a list of column names of which one is missing raises the
    [ValueError] of [tuple.index], wherever in the list the missing one is. *)
Lemma collect_index_missing names keys missing :
  missing ∈ keys → missing ∉ names →
  collect (agate.index names) keys
    = Raise (BuiltinError "ValueError" "tuple.index(x): x not in tuple").
Proof.
  intros Hin Hmissing. induction keys as [|key keys IH]; [by apply elem_of_nil in Hin |].
  simpl. destruct (agate.index names key) as [i|exc] eqn:Hkey.
  - simpl. apply elem_of_cons in Hin as [-> | Hin].
    + by rewrite index_missing in Hkey.
    + by rewrite IH.
  - simpl. by rewrite (index_raises _ _ _ Hkey).
Qed.

(** X5: column names are looked up as they are written, and a reply
    that lacks one is met differently by the two listings. [list_schemas]
    reads "name" row by row: without that column it returns no schema for
    a reply of no rows and raises [KeyError] otherwise.
    [list_relations_without_caching] selects its four columns before it
    reads any row: when the reply lacks one of database_name,
    schema_name, name, kind, it raises the [ValueError] of [tuple.index],
    rows or no rows. *)
Theorem listings_need_their_columns
    (database : string) (schema_relation : Relation) (st : State)
    (results : agate.Table) :
  (warehouse (journal st)
     (ExecuteMacro LIST_SCHEMAS_MACRO_NAME {["database" := ArgStr database]})
     = Return results →
   "name" ∉ agate.column_names results →
   (list_schemas database st).1 =
     match agate.rows results with
     | [] => Return []
     | _ :: _ => Raise (BuiltinError "KeyError" "name")
     end) ∧
  (warehouse (journal st)
     (ExecuteMacro LIST_RELATIONS_MACRO_NAME
        {["schema_relation" := ArgRelation schema_relation]})
     = Return results →
   ∀ missing,
     missing ∈ ["database_name"; "schema_name"; "name"; "kind"] →
     missing ∉ agate.column_names results →
     (list_relations_without_caching schema_relation st).1
       = Raise (BuiltinError "ValueError" "tuple.index(x): x not in tuple")).
Proof.
  split.
  - intros Hreply Hname. rewrite list_schemas_run, Hreply. simpl.
    unfold agate.iter. destruct (agate.rows results) as [|row rows]; [done |].
    simpl. by rewrite getitem_missing.
  - intros Hreply missing Hcolumn Hmissing.
    unfold list_relations_without_caching, execute_macro.
    rewrite bind_run, try_except_run, bind_run, send_run, Hreply. simpl.
    rewrite bind_run. unfold lift at 1. unfold agate.select.
    by rewrite (collect_index_missing _ _ missing).
Qed.

(** ** The bulk loader, whatever its outcome *)

Lemma loaded_functional names row r r' :
  loaded names row r → loaded names row r' → r = r'.
Proof. intros (? & _ & _ & Hr) (? & _ & _ & Hr'). congruence. Qed.

Lemma grown_nil names c : grown names [] c c.
Proof.
  split_and!.
  - intros pair. split; [by left |].
    intros [Hold | (row & r & Hrow & _)]; [done | by apply elem_of_nil in Hrow].
  - intros key. split; [by left |].
    intros [Hold | (row & r & Hrow & _)]; [done | by apply elem_of_nil in Hrow].
  - intros key r Hr. by left.
Qed.

Lemma grown_app names rows1 rows2 c c1 c2 :
  grown names rows1 c c1 → grown names rows2 c1 c2 →
  grown names (rows1 ++ rows2) c c2.
Proof.
  intros (Hknown1 & Hdom1 & Hfrom1) (Hknown2 & Hdom2 & Hfrom2). split_and!.
  - intros pair. rewrite Hknown2, Hknown1. setoid_rewrite elem_of_app. split.
    + intros [[Hold | (row & r & Hrow & Hload)] | (row & r & Hrow & Hload)];
        [by left | right; exists row, r; split; [by left | done]
                 | right; exists row, r; split; [by right | done]].
    + intros [Hold | (row & r & [Hrow|Hrow] & Hload)];
        [by left; left | left; right; by exists row, r | right; by exists row, r].
  - intros key. rewrite Hdom2, Hdom1. setoid_rewrite elem_of_app. split.
    + intros [[Hold | (row & r & Hrow & Hload)] | (row & r & Hrow & Hload)];
        [by left | right; exists row, r; split; [by left | done]
                 | right; exists row, r; split; [by right | done]].
    + intros [Hold | (row & r & [Hrow|Hrow] & Hload)];
        [by left; left | left; right; by exists row, r | right; by exists row, r].
  - intros key r Hr. setoid_rewrite elem_of_app.
    destruct (Hfrom2 key r Hr) as [Hr1 | (row & Hrow & Hload)].
    + destruct (Hfrom1 key r Hr1) as [Hr0 | (row & Hrow & Hload)]; [by left |].
      right. exists row. split; [by left | done].
    + right. exists row. split; [by right | done].
Qed.

Lemma grown_add names row r c :
  loaded names row r → grown names [row] c (cache.add r c).
Proof.
  intros Hload. unfold cache.add. split_and!; simpl.
  - intros pair. rewrite elem_of_union, elem_of_singleton. split.
    + intros [Hold | ->]; [by left |]. right. exists row, r. split; [by left | done].
    + intros [Hold | (row' & r' & ->%list_elem_of_singleton & Hload' & <-)]; [by left |].
      right. by rewrite (loaded_functional _ _ _ _ Hload Hload').
  - intros key. rewrite dom_insert_L, elem_of_union, elem_of_singleton. split.
    + intros [-> | Hold]; [| by left]. right. exists row, r. split; [by left | done].
    + intros [Hold | (row' & r' & ->%list_elem_of_singleton & Hload' & <-)]; [by right |].
      left. by rewrite (loaded_functional _ _ _ _ Hload Hload').
  - intros key r' Hr'. destruct (decide (relation_key r = key)) as [<-|Hne].
    + rewrite lookup_insert_eq in Hr'. injection Hr' as <-.
      right. exists row. split; [by left | done].
    + rewrite lookup_insert_ne in Hr' by done. by left.
Qed.

Lemma grown_skip names row c :
  (∀ r, ¬ loaded names row r) → grown names [row] c c.
Proof.
  intros Hnot. split_and!.
  - intros pair. split; [by left |].
    intros [Hold | (row' & r & ->%list_elem_of_singleton & Hload & _)]; [done |].
    by destruct (Hnot r).
  - intros key. split; [by left |].
    intros [Hold | (row' & r & ->%list_elem_of_singleton & Hload & _)]; [done |].
    by destruct (Hnot r).
  - intros key r Hr. by left.
Qed.

(** The loop over the rows of one listing: it sends nothing; it goes
    through all the rows, or stops at the first one it cannot read. *)
Lemma load_rows_any names rows st :
  let run := for_each rows (load_row names) st in
  ∃ processed,
    journal run.2 = journal st ∧
    grown names processed (relations_cache st) (relations_cache run.2) ∧
    match run.1 with
    | Return _ => processed = rows
    | Raise exc => ∃ row rest, rows = processed ++ row :: rest ∧ unreadable names row exc
    end.
Proof.
  revert st. induction rows as [|row rows IH]; intros st; cbv zeta.
  - exists []. split_and!; [done | apply grown_nil | done].
  - rewrite for_each_cons, load_row_run.
    destruct (agate.getitem row "schema_name") as [schema_name|exc] eqn:Hname.
    2: { exists []. split_and!; [done | apply grown_nil |].
         exists row, rows. split; [done | by left]. }
    case_bool_decide as Hin.
    + destruct (_database_object_to_relation row) as [relation|exc] eqn:Hrel.
      2: { exists []. split_and!; [done | apply grown_nil |].
           exists row, rows. split; [done |]. right. by exists schema_name. }
      set (st1 := {| relations_cache := cache.add relation (relations_cache st);
                     journal := journal st |}).
      destruct (IH st1) as (processed & Hjournal & Hgrown & Hend).
      exists (row :: processed). split_and!.
      * done.
      * apply (grown_app names [row] processed _ (relations_cache st1)); [| done].
        apply grown_add. by exists schema_name.
      * destruct (for_each rows (load_row names) st1).1 as [[]|exc].
        -- by rewrite Hend.
        -- destruct Hend as (bad & rest & -> & Hbad). by exists bad, rest.
    + destruct (IH st) as (processed & Hjournal & Hgrown & Hend).
      exists (row :: processed). split_and!.
      * done.
      * apply (grown_app names [row] processed _ (relations_cache st)); [| done].
        apply grown_skip. intros r (sn & Hsn & Hin' & _). congruence.
      * destruct (for_each rows (load_row names) st).1 as [[]|exc].
        -- by rewrite Hend.
        -- destruct Hend as (bad & rest & -> & Hbad). by exists bad, rest.
Qed.

Lemma listed_rows_app exchanges1 exchanges2 :
  listed_rows (exchanges1 ++ exchanges2) = listed_rows exchanges1 ++ listed_rows exchanges2.
Proof. unfold listed_rows. apply bind_app. Qed.

(** The loop over the databases: it ends with every listing answered and
    every row gone through, or stops at a listing, for its answer or for
    a row of it. *)
Lemma load_databases_any names databases st :
  let run := for_each databases (load_database names) st in
  ∃ new processed,
    journal run.2 = journal st ++ new ∧
    grown names processed (relations_cache st) (relations_cache run.2) ∧
    match run.1 with
    | Return _ =>
        new.*1 = objects_listing <$> databases ∧ Forall answered new ∧
        processed = listed_rows new
    | Raise exc =>
        ∃ visited database rest earlier answer,
          databases = visited ++ database :: rest ∧
          new = earlier ++ [(objects_listing database, answer)] ∧
          earlier.*1 = objects_listing <$> visited ∧ Forall answered earlier ∧
          match answer with
          | Raise (DatabaseException msg) =>
              exc = RuntimeException (listing_failure "objects" database msg) ∧
              processed = listed_rows earlier
          | Raise other => exc = other ∧ processed = listed_rows earlier
          | Return results =>
              ∃ before row after,
                agate.iter results = before ++ row :: after ∧
                unreadable names row exc ∧
                processed = listed_rows earlier ++ before
          end
    end.
Proof.
  revert st. induction databases as [|database databases IH]; intros st; cbv zeta.
  - exists [], []. simpl. rewrite app_nil_r.
    split_and!; [done | apply grown_nil | done | constructor | done].
  - rewrite for_each_cons, load_database_run.
    destruct (warehouse (journal st) (objects_listing database)) as [results|exc] eqn:Hanswer.
    + set (st0 := journal_add st [(objects_listing database, Return results)]).
      destruct (load_rows_any names (agate.iter results) st0)
        as (processed & Hjournal & Hgrown & Hend).
      destruct (for_each (agate.iter results) (load_row names) st0) as [[[]|exc] st1];
        simpl in Hjournal, Hgrown, Hend.
      * subst processed.
        destruct (IH st1) as (new & processed & Hnew & Hgrown' & Hrest).
        exists ((objects_listing database, Return results) :: new),
               (agate.iter results ++ processed).
        split_and!.
        { rewrite Hnew, Hjournal. simpl. by rewrite <- app_assoc. }
        { by eapply grown_app. }
        destruct (for_each databases (load_database names) st1).1 as [[]|exc].
        -- destruct Hrest as (Hsent & Hanswered & ->).
           split_and!.
           ++ rewrite !fmap_cons. by rewrite Hsent.
           ++ constructor; [by exists results | done].
           ++ by rewrite listed_rows_cons.
        -- destruct Hrest as (visited & d & rest & earlier & answer & -> & -> & Hsent
                              & Hanswered & Hwhy).
           exists (database :: visited), d, rest,
                  ((objects_listing database, Return results) :: earlier), answer.
           split_and!; [done | done | rewrite !fmap_cons; by rewrite Hsent | |].
           { constructor; [by exists results | done]. }
           rewrite listed_rows_cons.
           destruct answer as [table|[msg| |]].
           ++ destruct Hwhy as (before & row & after & Hrows & Hbad & ->).
              exists before, row, after. by rewrite <- app_assoc.
           ++ by destruct Hwhy as [-> ->].
           ++ by destruct Hwhy as [-> ->].
           ++ by destruct Hwhy as [-> ->].
      * destruct Hend as (row & rest & Hrows & Hbad).
        exists [(objects_listing database, Return results)], processed.
        split_and!; [done | done |].
        exists [], database, databases, [], (Return results).
        split_and!; [done | done | done | constructor |].
        by exists processed, row, rest.
    + destruct exc as [msg|msg|cls arg];
        match type of Hanswer with
        | _ = ?answer =>
            exists [(objects_listing database, answer)], [];
            (split_and!; [done | apply grown_nil |]);
            exists [], database, databases, [], answer;
            (split_and!; first [done | constructor])
        end.
Qed.

Lemma getitem_raises row key exc :
  agate.getitem row key = Raise exc → exc = BuiltinError "KeyError" key.
Proof. unfold agate.getitem. destruct (_ !! key); congruence. Qed.

Lemma database_object_to_relation_raises row exc :
  _database_object_to_relation row = Raise exc →
  ∃ column, column ∈ ["kind"; "database_name"; "schema_name"; "name"] ∧
            agate.getitem row column = Raise exc.
Proof.
  unfold _database_object_to_relation. intros Hrel.
  destruct (agate.getitem row "kind") as [kind|] eqn:Hkind; simpl in Hrel;
    [| exists "kind"; split; [repeat constructor | congruence]].
  destruct (agate.getitem row "database_name") as [database_name|] eqn:Hdatabase; simpl in Hrel;
    [| exists "database_name"; split; [repeat constructor | congruence]].
  destruct (agate.getitem row "schema_name") as [schema_name|] eqn:Hschema; simpl in Hrel;
    [| exists "schema_name"; split; [repeat constructor | congruence]].
  destruct (agate.getitem row "name") as [name|] eqn:Hname; simpl in Hrel;
    [| exists "name"; split; [repeat constructor | congruence]].
  done.
Qed.

(** [set_relations_cache] from end to end, for each outcome. *)
Lemma set_relations_cache_any manifest clear st :
  let requested := _get_cache_schemas manifest in
  let databases := set_iter (list_to_set (database <$> requested)) in
  let names : gset string := list_to_set ((λ c, lower (schema c)) <$> requested) in
  let pairs : gset SchemaKey :=
    list_to_set ((λ c, (Some (database c), Some (schema c))) <$> requested) in
  let run := set_relations_cache manifest clear st in
  ∃ new processed c1,
    journal run.2 = journal st ++ new ∧
    new.*1 `prefix_of` objects_listing <$> databases ∧
    processed ⊆ listed_rows new ∧
    grown names processed (if clear then cache.empty else relations_cache st) c1 ∧
    match run.1 with
    | Return _ =>
        relations_cache run.2 = cache.update_schemas pairs c1 ∧
        Forall answered new ∧ processed = listed_rows new
    | Raise exc =>
        relations_cache run.2 = c1 ∧
        ∃ earlier failed answer,
          new = earlier ++ [(objects_listing failed, answer)] ∧
          Forall answered earlier ∧
          match answer with
          | Raise (DatabaseException msg) =>
              exc = RuntimeException (listing_failure "objects" failed msg)
          | Raise other => exc = other
          | Return results => ∃ row, row ∈ agate.iter results ∧ unreadable names row exc
          end
    end.
Proof.
  intros requested databases names pairs. cbv zeta.
  rewrite set_relations_cache_run, relations_cache_for_schemas_run.
  fold requested. fold databases. fold names. fold pairs.
  set (st0 := {| relations_cache := if clear then cache.clear (relations_cache st)
                                    else relations_cache st;
                 journal := journal st |}).
  destruct (load_databases_any names databases st0)
    as (new & processed & Hjournal & Hgrown & Hend).
  destruct (for_each databases (load_database names) st0) as [[[]|exc] st1];
    simpl in Hjournal, Hgrown, Hend; simpl.
  - destruct Hend as (Hsent & Hanswered & ->).
    exists new, (listed_rows new), (relations_cache st1).
    split_and!; [done | by rewrite Hsent | done | by destruct clear | done | done | done].
  - destruct Hend as (visited & failed & rest & earlier & answer & Hdbs & -> & Hsent
                      & Hanswered & Hwhy).
    exists (earlier ++ [(objects_listing failed, answer)]), processed, (relations_cache st1).
    split_and!.
    + done.
    + rewrite Hdbs, !fmap_app, Hsent. simpl. apply prefix_app, prefix_cons, prefix_nil.
    + rewrite listed_rows_app.
      destruct answer as [results|[msg| |]].
      * destruct Hwhy as (before & row & after & Hrows & _ & ->).
        unfold listed_rows at 2. simpl. rewrite app_nil_r, Hrows.
        intros x [?|?]%elem_of_app; apply elem_of_app; [by left | right].
        apply elem_of_app. by left.
      * destruct Hwhy as [_ ->]. intros x ?. apply elem_of_app. by left.
      * destruct Hwhy as [_ ->]. intros x ?. apply elem_of_app. by left.
      * destruct Hwhy as [_ ->]. intros x ?. apply elem_of_app. by left.
    + by destruct clear.
    + done.
    + exists earlier, failed, answer. split_and!; [done | done |].
      destruct answer as [results|[msg| |]]; try by destruct Hwhy.
      destruct Hwhy as (before & row & after & Hrows & Hbad & _).
      exists row. split; [| done]. rewrite Hrows. apply elem_of_app. right. by left.
Qed.

Lemma sent_to_requested (requested : list SchemaRelation) (sent : list request) more r :
  sent ++ more = objects_listing <$> set_iter (list_to_set (database <$> requested)) →
  r ∈ sent →
  ∃ c, c ∈ requested ∧ r = objects_listing (database c).
Proof using set_iter_perm.
  intros Hsent Hr.
  assert (r ∈ objects_listing <$> set_iter (list_to_set (database <$> requested)))
    as (d & -> & Hd)%list_elem_of_fmap
    by (rewrite <- Hsent; apply elem_of_app; by left).
  rewrite elem_of_set_iter, elem_of_list_to_set in Hd.
  apply list_elem_of_fmap in Hd as (c & -> & Hc). by exists c.
Qed.

(** X6: why a bulk population fails. When [set_relations_cache] raises,
    the last request it sent is the listing of the database of a
    requested schema, and every listing before it was answered with a
    table. The failure is the listing's database error wrapped in a
    runtime failure, or the listing's other exception as it is, or, when
    the listing was answered with a table, the [KeyError] of a row of it
    that lacks one of the columns schema_name, kind, database_name, name. *)
Theorem population_fails_at_its_last_listing
    (manifest : Manifest) (clear : bool) (st st' : State) (exc : exn) :
  set_relations_cache manifest clear st = (Raise exc, st') →
  ∃ earlier failed answer,
    journal st' = journal st ++ earlier ++ [(objects_listing failed, answer)] ∧
    Forall answered earlier ∧
    (∃ c, c ∈ _get_cache_schemas manifest ∧ database c = failed) ∧
    match answer with
    | Raise (DatabaseException msg) =>
        exc = RuntimeException (listing_failure "objects" failed msg)
    | Raise other => exc = other
    | Return results =>
        ∃ row column,
          row ∈ agate.iter results ∧
          column ∈ ["schema_name"; "kind"; "database_name"; "name"] ∧
          agate.getitem row column = Raise exc ∧
          exc = BuiltinError "KeyError" column
    end.
Proof using set_iter_perm.
  intros Hrun.
  destruct (set_relations_cache_any manifest clear st)
    as (new & processed & c1 & Hjournal & [more Hprefix] & _ & _ & Hend).
  rewrite Hrun in Hjournal, Hend. simpl in Hjournal, Hend.
  destruct Hend as (_ & earlier & failed & answer & -> & Hanswered & Hwhy).
  exists earlier, failed, answer. split_and!; [done | done | |].
  - destruct (sent_to_requested (_get_cache_schemas manifest)
                (earlier ++ [(objects_listing failed, answer)]).*1 more
                (objects_listing failed)) as (c & Hc & Hfailed); [done | |].
    + rewrite fmap_app. apply elem_of_app. right. by left.
    + exists c. split; [done |]. symmetry. by apply objects_listing_inj.
  - destruct answer as [results|[msg| |]]; try done.
    destruct Hwhy as (row & Hrow & [Hname | (schema_name & Hname & _ & Hrel)]).
    + exists row, "schema_name". split_and!; [done | by left | done |].
      by apply getitem_raises in Hname.
    + apply database_object_to_relation_raises in Hrel as (column & Hcolumn & Hraise).
      exists row, column. split_and!; [done | | done | by apply getitem_raises in Hraise].
      apply elem_of_cons in Hcolumn as [-> | Hcolumn]; [right; by left |].
      apply elem_of_cons in Hcolumn as [-> | Hcolumn]; [do 2 right; by left |].
      apply elem_of_cons in Hcolumn as [-> | Hcolumn]; [by left |].
      apply elem_of_cons in Hcolumn as [-> | Hcolumn]; [do 3 right; by left |].
      by apply elem_of_nil in Hcolumn.
Qed.

(** X7: what bulk population without clearing never does, whether it
    returns or raises. It sends nothing but listings of the databases of
    the requested schemas, and none of them twice. It forgets no known
    schema and drops no key. A relation stored afterwards is the one that
    was stored at its key before, or the relation of a row listed in this
    run whose schema name is, up to letter case, that of a requested
    schema. A schema known afterwards was known before, or is the schema
    of a relation loaded from such a row, or, when the run returned, is a
    requested pair. *)
Theorem bulk_population_only_adds (manifest : Manifest) (st : State) :
  let requested := _get_cache_schemas manifest in
  let run := set_relations_cache manifest false st in
  let before := relations_cache st in
  let after := relations_cache run.2 in
  ∃ new,
    journal run.2 = journal st ++ new ∧
    NoDup new.*1 ∧
    (∀ sent, sent ∈ new.*1 → ∃ c, c ∈ requested ∧ sent = objects_listing (database c)) ∧
    knownSchemas before ⊆ knownSchemas after ∧
    dom (relationsByKey before) ⊆ dom (relationsByKey after) ∧
    (∀ key r, relationsByKey after !! key = Some r →
       relationsByKey before !! key = Some r ∨
       ∃ row schema_name c,
         row ∈ listed_rows new ∧
         agate.getitem row "schema_name" = Return schema_name ∧
         c ∈ requested ∧ lower schema_name = lower (schema c) ∧
         _database_object_to_relation row = Return r ∧
         relation_key r = key) ∧
    (∀ pair, pair ∈ knownSchemas after →
       pair ∈ knownSchemas before ∨
       (∃ row r, row ∈ listed_rows new ∧
                 _database_object_to_relation row = Return r ∧
                 schema_key (rel_database r) (rel_schema r) = pair) ∨
       (run.1 = Return tt ∧
        ∃ c, c ∈ requested ∧ pair = schema_key (Some (database c)) (Some (schema c)))).
Proof using set_iter_perm.
  intros requested run before after. subst before after.
  destruct (set_relations_cache_any manifest false st)
    as (new & processed & c1 & Hjournal & [more Hprefix] & Hsub
        & (Hknown & Hdom & Hfrom) & Hend).
  fold requested in Hprefix, Hknown, Hdom, Hfrom, Hend.
  fold run in Hjournal, Hend. clearbody run.
  assert (relationsByKey (relations_cache run.2) = relationsByKey c1) as Hstored.
  { destruct run as [[[]|exc] st']; simpl in *; by destruct Hend as [-> _]. }
  assert (∀ pair, pair ∈ knownSchemas (relations_cache run.2) ↔
            pair ∈ knownSchemas c1 ∨
            (run.1 = Return tt ∧
             ∃ c, c ∈ requested ∧
                  pair = schema_key (Some (database c)) (Some (schema c)))) as Hmarked.
  { intros pair. destruct run as [[[]|exc] st']; simpl in *; destruct Hend as [-> _].
    - unfold cache.update_schemas. simpl. rewrite elem_of_union, elem_of_map. split.
      + intros [Hold | ([d s] & -> & Hin)]; [by left | right].
        apply elem_of_list_to_set, list_elem_of_fmap in Hin as (c & [= -> ->] & Hc).
        split; [done |]. by exists c.
      + intros [Hold | (_ & c & Hc & ->)]; [by left | right].
        exists (Some (database c), Some (schema c)). split; [done |].
        apply elem_of_list_to_set.
        by apply (list_elem_of_fmap_2 (λ c, (Some (database c), Some (schema c)))).
    - split; [by left |]. by intros [Hold | [[=] _]]. }
  rewrite Hstored. exists new. split_and!.
  - done.
  - pose proof (set_iter_NoDup (list_to_set (database <$> requested))) as Hnodup.
    apply (@NoDup_fmap_2 _ _ objects_listing objects_listing_inj) in Hnodup.
    rewrite Hprefix in Hnodup. by apply NoDup_app in Hnodup as [? _].
  - intros sent Hsent. by eapply sent_to_requested.
  - intros pair Hpair. apply Hmarked. left. apply Hknown. by left.
  - intros key Hkey. apply Hdom. by left.
  - intros key r Hr.
    destruct (Hfrom key r Hr) as [Hold | (row & Hrow & Hload & Hkey)]; [by left | right].
    destruct Hload as (schema_name & Hname & Hnames & Hrel).
    apply elem_of_list_to_set, list_elem_of_fmap in Hnames as (c & Hlower & Hc).
    exists row, schema_name, c. split_and!; try done. by apply Hsub.
  - intros pair [Hpair | Hrequested]%Hmarked; [| by do 2 right].
    apply Hknown in Hpair as [Hold | (row & r & Hrow & Hload & Hschema)]; [by left |].
    right; left. destruct Hload as (schema_name & _ & _ & Hrel).
    exists row, r. split_and!; [by apply Hsub | done | done].
Qed.

Lemma relation_key_schema_key r r' :
  relation_key r = relation_key r' →
  schema_key (rel_database r) (rel_schema r) = schema_key (rel_database r') (rel_schema r').
Proof. unfold relation_key, schema_key. congruence. Qed.

(** X8: populating with [clear] takes a snapshot. When it returns, every
    stored relation sits at its own key and is the relation of a row
    listed in this run, whatever the cache held before; and the known
    schemas are the requested pairs and the schemas of the stored
    relations, no others. *)
Theorem cleared_population_is_a_snapshot (manifest : Manifest) (st st' : State) :
  set_relations_cache manifest true st = (Return tt, st') →
  let requested := _get_cache_schemas manifest in
  let after := relations_cache st' in
  ∃ new,
    journal st' = journal st ++ new ∧
    (∀ key r, relationsByKey after !! key = Some r →
       relation_key r = key ∧
       ∃ row, row ∈ listed_rows new ∧ _database_object_to_relation row = Return r) ∧
    (∀ pair, pair ∈ knownSchemas after ↔
       (∃ c, c ∈ requested ∧ pair = schema_key (Some (database c)) (Some (schema c))) ∨
       (∃ key r, relationsByKey after !! key = Some r ∧
                 schema_key (rel_database r) (rel_schema r) = pair)).
Proof.
  intros Hrun requested after. subst after.
  destruct (set_relations_cache_any manifest true st)
    as (new & processed & c1 & Hjournal & _ & _ & (Hknown & Hdom & Hfrom) & Hend).
  rewrite Hrun in Hjournal, Hend. simpl in Hjournal, Hend.
  destruct Hend as (-> & _ & ->). fold requested.
  assert (∀ key r, relationsByKey c1 !! key = Some r →
            ∃ row, row ∈ listed_rows new ∧
                   loaded (list_to_set ((λ c, lower (schema c)) <$> requested)) row r ∧
                   relation_key r = key) as Hlisted.
  { intros key r Hr. destruct (Hfrom key r Hr) as [Hold | ?]; [| done].
    simpl in Hold. by rewrite lookup_empty in Hold. }
  exists new. split_and!; [done | |].
  - intros key r Hr. simpl in Hr.
    destruct (Hlisted key r Hr) as (row & Hrow & (schema_name & _ & _ & Hrel) & Hkey).
    split; [done |]. by exists row.
  - intros pair. unfold cache.update_schemas. simpl.
    rewrite elem_of_union, elem_of_map. split.
    + intros [Hpair | ([d s] & -> & Hin)].
      * right. apply Hknown in Hpair as [Hold | (row & r & Hrow & Hload & <-)].
        { simpl in Hold. by apply not_elem_of_empty in Hold. }
        assert (relation_key r ∈ dom (relationsByKey c1)) as [r' Hr']%elem_of_dom
          by (apply Hdom; right; by exists row, r).
        exists (relation_key r), r'. split; [done |].
        destruct (Hlisted _ _ Hr') as (_ & _ & _ & Hkey).
        by apply relation_key_schema_key.
      * left. apply elem_of_list_to_set, list_elem_of_fmap in Hin as (c & [= -> ->] & Hc).
        by exists c.
    + intros [(c & Hc & ->) | (key & r & Hr & <-)].
      * right. exists (Some (database c), Some (schema c)). split; [done |].
        apply elem_of_list_to_set.
        by apply (list_elem_of_fmap_2 (λ c, (Some (database c), Some (schema c)))).
      * left. destruct (Hlisted key r Hr) as (row & Hrow & Hload & _).
        apply Hknown. right. by exists row, r.
Qed.

(** X9: with no schema requested, [set_relations_cache] returns without
    sending anything; the cache is left as it was, or left empty when it
    was to be cleared. *)
Theorem empty_manifest_sends_nothing (manifest : Manifest) (clear : bool) (st : State) :
  _get_cache_schemas manifest = [] →
  set_relations_cache manifest clear st =
    (Return tt, {| relations_cache := if clear then cache.empty else relations_cache st;
                   journal := journal st |}).
Proof using set_iter_perm.
  intros Hnone. rewrite set_relations_cache_run, relations_cache_for_schemas_run, Hnone.
  simpl.
  assert (set_iter ∅ = []) as ->
    by (apply Permutation_nil_r; rewrite set_iter_perm; by rewrite elements_empty).
  simpl. do 2 f_equal. unfold cache.update_schemas. simpl.
  rewrite set_map_empty, (right_id_L ∅ (∪)).
  by destruct clear, st as [[] ?].
Qed.

(** X10: bulk population keeps the cache consistent, whether it returns
    or raises: if every stored relation's schema was a known schema
    before, or the cache is cleared first, then every stored relation's
    schema is a known schema afterwards. *)
Theorem population_keeps_schemas_of_relations_known
    (manifest : Manifest) (clear : bool) (st : State) :
  clear = true ∨ schemas_of_relations_known (relations_cache st) →
  schemas_of_relations_known (relations_cache (set_relations_cache manifest clear st).2).
Proof.
  intros Hbefore.
  destruct (set_relations_cache_any manifest clear st)
    as (new & processed & c1 & _ & _ & _ & (Hknown & _ & Hfrom) & Hend).
  assert (schemas_of_relations_known c1) as Hc1.
  { intros key r Hr. apply Hknown.
    destruct (Hfrom key r Hr) as [Hold | (row & Hrow & Hload & _)];
      [left | right; by exists row, r].
    destruct clear.
    - simpl in Hold. by rewrite lookup_empty in Hold.
    - destruct Hbefore as [[=] | Hbefore]. by eapply Hbefore. }
  destruct (set_relations_cache manifest clear st) as [[[]|exc] st']; simpl in *.
  - destruct Hend as (-> & _). intros key r Hr.
    unfold cache.update_schemas. simpl. apply elem_of_union_l. by eapply Hc1.
  - by destruct Hend as (-> & _).
Qed.

(** ** The bulk loader as a fold *)

Lemma add_all_cons r relations c :
  add_all (r :: relations) c = add_all relations (cache.add r c).
Proof. reflexivity. Qed.

Lemma add_all_app relations1 relations2 c :
  add_all (relations1 ++ relations2) c = add_all relations2 (add_all relations1 c).
Proof. apply foldl_app. Qed.

(** The relation stored at a key is that of the last relation added at it. *)
Lemma add_all_lookup relations c key :
  relationsByKey (add_all relations c) !! key =
    match last (filter (λ r, relation_key r = key) relations) with
    | Some r => Some r
    | None => relationsByKey c !! key
    end.
Proof.
  revert c. induction relations as [|r rs IH]; intros c; [done |].
  rewrite add_all_cons, IH.
  destruct (decide (relation_key r = key)) as [Hkey | Hkey].
  - rewrite filter_cons_True by done. rewrite last_cons.
    destruct (last _); [done |]. simpl. rewrite <- Hkey. apply lookup_insert_eq.
  - rewrite filter_cons_False by done.
    destruct (last _); [done |]. simpl. by rewrite lookup_insert_ne.
Qed.

Lemma add_all_known relations c :
  knownSchemas (add_all relations c) =
    knownSchemas c ∪
    list_to_set ((λ r, schema_key (rel_database r) (rel_schema r)) <$> relations).
Proof.
  revert c. induction relations as [|r rs IH]; intros c.
  - simpl. by rewrite (right_id_L ∅ (∪)).
  - rewrite add_all_cons, IH. simpl. by rewrite (assoc_L (∪)).
Qed.

Lemma load_rows_fold names rows st st' :
  for_each rows (load_row names) st = (Return tt, st') →
  relations_cache st' = add_all (omap (relation_of names) rows) (relations_cache st).
Proof.
  revert st. induction rows as [|row rows IH]; intros st Hrun.
  - by injection Hrun as <-.
  - rewrite for_each_cons, load_row_run in Hrun. simpl. unfold relation_of at 1.
    destruct (agate.getitem row "schema_name") as [schema_name|exc]; [| done].
    case_bool_decide.
    + destruct (_database_object_to_relation row) as [relation|exc]; [| done].
      apply IH in Hrun. by rewrite Hrun.
    + by apply IH in Hrun.
Qed.

Lemma load_databases_fold names databases st st' :
  for_each databases (load_database names) st = (Return tt, st') →
  ∃ new,
    journal st' = journal st ++ new ∧
    relations_cache st' =
      add_all (omap (relation_of names) (listed_rows new)) (relations_cache st).
Proof.
  revert st. induction databases as [|database databases IH]; intros st Hrun.
  - injection Hrun as <-. exists []. by rewrite app_nil_r.
  - rewrite for_each_cons, load_database_run in Hrun.
    destruct (warehouse (journal st) (objects_listing database)) as [results|[msg| |]];
      try done.
    destruct (for_each (agate.iter results) (load_row names) _) as [[[]|exc] st1] eqn:Hrows;
      [| done].
    pose proof (load_rows_fold _ _ _ _ Hrows) as Hcache.
    apply load_rows_run in Hrows as [Hjournal _].
    apply IH in Hrun as (new & Hnew & Hrest).
    exists ((objects_listing database, Return results) :: new). split.
    + rewrite Hnew, Hjournal. simpl. by rewrite <- app_assoc.
    + rewrite Hrest, Hcache, listed_rows_cons, omap_app, add_all_app. done.
Qed.

Lemma set_relations_cache_fold manifest clear st st' :
  set_relations_cache manifest clear st = (Return tt, st') →
  let requested := _get_cache_schemas manifest in
  let names : gset string := list_to_set ((λ c, lower (schema c)) <$> requested) in
  let pairs : gset SchemaKey :=
    list_to_set ((λ c, (Some (database c), Some (schema c))) <$> requested) in
  ∃ new,
    journal st' = journal st ++ new ∧
    relations_cache st' =
      cache.update_schemas pairs
        (add_all (omap (relation_of names) (listed_rows new))
                 (if clear then cache.empty else relations_cache st)).
Proof.
  intros Hrun requested names pairs.
  rewrite set_relations_cache_run, relations_cache_for_schemas_run in Hrun.
  fold requested in Hrun. fold names in Hrun. fold pairs in Hrun.
  destruct (for_each _ _ _) as [[[]|exc] st1] eqn:Hloop; [| done].
  injection Hrun as <-.
  apply load_databases_fold in Hloop as (new & Hjournal & Hcache).
  exists new. split; [done |]. simpl. rewrite Hcache. by destruct clear.
Qed.

Lemma union_absorbed (A B C : gset SchemaKey) : A ∪ B ∪ C ∪ B ∪ C = A ∪ B ∪ C.
Proof. clear. set_solver. Qed.

(** X11: populating again changes nothing when the warehouse answers as
    before: if a population returned, and a second one, not clearing,
    sends its listings and gets the replies of the first, the cache after
    the second is the cache after the first. *)
Theorem repeated_population_changes_nothing
    (manifest : Manifest) (clear : bool) (st st1 st2 : State) :
  set_relations_cache manifest clear st = (Return tt, st1) →
  set_relations_cache manifest false st1 = (Return tt, st2) →
  drop (length (journal st1)) (journal st2) = drop (length (journal st)) (journal st1) →
  relations_cache st2 = relations_cache st1.
Proof.
  intros Hfirst Hsecond Hsame.
  apply set_relations_cache_fold in Hfirst as (new1 & Hjournal1 & Hcache1).
  apply set_relations_cache_fold in Hsecond as (new2 & Hjournal2 & Hcache2).
  rewrite Hjournal2, drop_app_length, Hjournal1, drop_app_length in Hsame. subst new2.
  rewrite Hcache2. rewrite Hcache1 at 2.
  set (relations := omap _ (listed_rows new1)) in *.
  unfold cache.update_schemas. f_equal.
  - simpl. apply map_eq. intros key. rewrite add_all_lookup, Hcache1. simpl.
    rewrite add_all_lookup. by destruct (last _).
  - simpl. rewrite add_all_known, Hcache1. simpl. rewrite add_all_known.
    apply union_absorbed.
Qed.

End SnowflakeAdapter.

(** * The adapter at work

    Runs of the adapter against the warehouse of [fixture]; a manifest is
    the list of its schema relations. Every name of these runs is ASCII,
    and the runs are made with the folding of the ASCII letters. *)

#[global] Existing Instance ascii_str.

(** The scenario of the specification: from an empty cache, populating
    (ANALYTICS, PUBLIC) leaves exactly the table ORDERS and the view V1 in
    that schema. *)
Example populate_analytics_public :
  let run := set_relations_cache (list SchemaRelation) id fixture.get_relation_type
               fixture.warehouse elements
               [{| database := "ANALYTICS"; schema := "PUBLIC" |}] true fixture.start in
  run.1 = Return tt ∧
  cache.getRelationsInSchema (Some "ANALYTICS") (Some "PUBLIC") (relations_cache run.2)
    ≡ₚ [fixture.relation "ANALYTICS" "PUBLIC" "ORDERS" RelationType.Table;
        fixture.relation "ANALYTICS" "PUBLIC" "V1" RelationType.View] ∧
  cache.getRelationsInSchema (Some "ANALYTICS") (Some "STAGING") (relations_cache run.2) = [].
Proof.
  vm_compute. split_and!; [done | | done].
  apply Permutation_swap || reflexivity.
Qed.

(** A kind the relation class does not know, STAGE, is listed as [External]. *)
Example stage_is_external :
  _database_object_to_relation fixture.get_relation_type
      {| agate.keys := ["database_name"; "schema_name"; "name"; "kind"];
         agate.values := ["ANALYTICS"; "STAGING"; "RAW"; "STAGE"] |}
    = Return (fixture.relation "ANALYTICS" "STAGING" "RAW" RelationType.External).
Proof. reflexivity. Qed.

(** Entering a model that asks for another warehouse and leaving it again
    puts the session back on the warehouse it was on. *)
Example hooks_restore_the_warehouse :
  let config : gmap string (option string) := {["snowflake_warehouse" := Some "LOADING_WH"]} in
  let entered := pre_model_hook fixture.warehouse (Some "COMPUTE_WH") config fixture.start in
  entered.1 = Return (Some "COMPUTE_WH") ∧
  fixture.active_warehouse (journal entered.2) = "LOADING_WH" ∧
  let left := post_model_hook fixture.warehouse config (Some "COMPUTE_WH") entered.2 in
  left.1 = Return tt ∧
  fixture.active_warehouse (journal left.2) = "COMPUTE_WH".
Proof. vm_compute. done. Qed.

(** A population that fails on the second database it visits (here in the
    order of [elements]) raises and leaves the cache with the objects of
    the first: nothing is rolled back, and the schema of the failed
    database is not marked. *)
Example failed_population_keeps_the_first_database :
  let requested := [{| database := "ANALYTICS"; schema := "PUBLIC" |};
                    {| database := "NOWHERE"; schema := "PUBLIC" |}] in
  let run := set_relations_cache (list SchemaRelation) id fixture.get_relation_type
               fixture.warehouse elements requested true fixture.start in
  run.1 = Raise (RuntimeException
                   (listing_failure "objects" "NOWHERE"
                      "Database does not exist or not authorized.")) ∧
  length (cache.getRelationsInSchema (Some "ANALYTICS") (Some "PUBLIC")
            (relations_cache run.2)) = 2 ∧
  cache.isSchemaKnown (Some "NOWHERE") (Some "PUBLIC") (relations_cache run.2) = false.
Proof. vm_compute. done. Qed.

(** ** The theorems at work *)

(** The normaliser on names of ASCII letters: with no part quoted,
    ("db", "sch", "Tbl") becomes ("DB", "SCH", "TBL"); with the identifier
    quoted, "Tbl" is kept. *)
Lemma normalising_db_sch_tbl :
  let unquoted := {| quoting_database := false; quoting_schema := false;
                     quoting_identifier := false |} in
  let quoted := {| quoting_database := false; quoting_schema := false;
                   quoting_identifier := true |} in
  is_ascii "Tbl" = true ∧
  upper "Tbl" = "TBL" ∧
  _make_match_kwargs unquoted (Some "db") (Some "sch") (Some "Tbl")
    = {["database" := "DB"; "schema" := "SCH"; "identifier" := "TBL"]} ∧
  _make_match_kwargs quoted (Some "db") None (Some "Tbl") !! "identifier" = Some "Tbl" ∧
  _make_match_kwargs quoted (Some "db") None (Some "Tbl") !! "schema" = None.
Proof.
  intros unquoted quoted.
  destruct (make_match_kwargs_folds_unquoted_parts (str := ascii_str) (λ s _, eq_refl)
              quoted (Some "db") None (Some "Tbl"))
    as (_ & Hschema & Hidentifier & _ & Hexample).
  split_and!; [reflexivity | reflexivity | exact Hexample | exact Hidentifier | exact Hschema].
Defined.

(** Normalising ("db", "Sch", "Tbl") with the schema quoted, and the
    result once more. *)
Lemma normalising_twice :
  let quoting := {| quoting_database := false; quoting_schema := true;
                    quoting_identifier := false |} in
  let kwargs := _make_match_kwargs quoting (Some "db") (Some "Sch") (Some "Tbl") in
  (∀ s, upper (upper s) = upper s) ∧
  kwargs = {["database" := "DB"; "schema" := "Sch"; "identifier" := "TBL"]} ∧
  _make_match_kwargs quoting (Some "DB") (Some "Sch") (Some "TBL") = kwargs.
Proof.
  intros quoting kwargs.
  split; [exact ascii_upper_idemp |]. split; [by vm_compute |].
  exact (make_match_kwargs_idempotent (str := ascii_str) ascii_upper_idemp
           quoting (Some "db") (Some "Sch") (Some "Tbl")).
Defined.

(** Bulk population of two schemas in two databases: two listings, one for
    each database. *)
Lemma bulk_population_of_two_schemas :
  let run := _relations_cache_for_schemas (list SchemaRelation) id
               fixture.get_relation_type fixture.warehouse elements
               fixture.two_schemas fixture.start in
  run = (Return tt, run.2) ∧
  ∃ new,
    journal run.2 = journal fixture.start ++ new ∧
    NoDup new.*1 ∧
    (∀ sent, sent ∈ new.*1 ↔
             ∃ c, c ∈ fixture.two_schemas ∧ sent = objects_listing (database c)).
Proof.
  intros run.
  assert (run = (Return tt, run.2)) as Hrun by (vm_compute; reflexivity).
  split; [exact Hrun |].
  destruct (bulk_population_lists_each_database_once
              (list SchemaRelation) id fixture.get_relation_type fixture.warehouse
              elements fixture.elements_order fixture.two_schemas
              fixture.start run.2 Hrun)
    as (new & Hjournal & Hnodup & Hsent & _).
  exists new. split_and!; [exact Hjournal | exact Hnodup | exact Hsent].
Defined.

(** C1 as first stated (a listed object is loaded exactly when its
    normalised (database, schema) pair is requested) fails here: the
    object ANALYTICS.STAGING.RAW is listed with the database ANALYTICS and
    loaded into the cache, although the pair (ANALYTICS, STAGING) was not
    requested; STAGING was requested for the database SCRATCH only. *)
Lemma bulk_population_loads_unrequested_pair :
  let run := _relations_cache_for_schemas (list SchemaRelation) id
               fixture.get_relation_type fixture.warehouse elements
               fixture.two_schemas fixture.start in
  run.1 = Return tt ∧
  fixture.raw_row ∈ listed_rows (journal run.2) ∧
  _database_object_to_relation fixture.get_relation_type fixture.raw_row
    = Return fixture.raw ∧
  relationsByKey (relations_cache run.2) !! relation_key fixture.raw = Some fixture.raw ∧
  schema_key (rel_database fixture.raw) (rel_schema fixture.raw)
    ∉ (λ c, schema_key (Some (database c)) (Some (schema c))) <$> fixture.two_schemas.
Proof.
  intros run. split_and!.
  - by vm_compute.
  - vm_compute. do 2 right. left.
  - reflexivity.
  - by vm_compute.
  - vm_compute. intros Hin. repeat (apply elem_of_cons in Hin as [[=] | Hin]).
    by apply elem_of_nil in Hin.
Qed.



(** The listing of ANALYTICS.PUBLIC, mapped by either path. *)
Lemma row_mappings_agree_on_public :
  let table := fixture.objects fixture.public_objects in
  let listed := [fixture.relation "ANALYTICS" "PUBLIC" "ORDERS" RelationType.Table;
                 fixture.relation "ANALYTICS" "PUBLIC" "V1" RelationType.View] in
  agate.well_formed table = true ∧
  (list_relations_without_caching "list_relations_without_caching"
     fixture.get_relation_type fixture.warehouse
     (fixture.schema_relation "ANALYTICS" "PUBLIC") fixture.start).1 = Return listed ∧
  collect (_database_object_to_relation fixture.get_relation_type) (agate.iter table)
    = Return listed.
Proof.
  intros table listed.
  assert (agate.well_formed table = true) as Hwf by reflexivity.
  split; [exact Hwf |].
  destruct (row_mappings_agree "list_relations_without_caching"
              fixture.get_relation_type fixture.warehouse
              (fixture.schema_relation "ANALYTICS" "PUBLIC") table fixture.start
              0 1 2 3 eq_refl Hwf eq_refl eq_refl eq_refl eq_refl)
    as (Hschema & Hbulk & _).
  split; [exact Hschema | exact Hbulk].
Defined.

(** A schema that does not exist lists as empty, and so do the columns of
    a table that does not exist. *)
Lemma missing_schema_and_table_are_empty :
  let missing := fixture.schema_relation "ANALYTICS" "MISSING" in
  let listing := ExecuteMacro "list_relations_without_caching"
                   {["schema_relation" := ArgRelation missing]} in
  let failure := DatabaseException
    "SQL compilation error: Object does not exist, or operation cannot be performed." in
  fixture.warehouse (journal fixture.start) listing = Raise failure ∧
  list_relations_without_caching "list_relations_without_caching"
    fixture.get_relation_type fixture.warehouse missing fixture.start
    = (Return [], journal_add fixture.start [(listing, Raise failure)]) ∧
  get_columns_in_relation string fixture.super_get_columns_in_relation
    (fixture.relation "ANALYTICS" "PUBLIC" "GONE" RelationType.Table) fixture.start
    = (Return [], fixture.start).
Proof.
  intros missing listing failure.
  assert (fixture.warehouse (journal fixture.start) listing = Raise failure)
    as Hreply by reflexivity.
  split; [exact Hreply |].
  destruct (not_found_failures_are_suppressed "list_relations_without_caching"
              fixture.get_relation_type string fixture.super_get_columns_in_relation
              fixture.warehouse missing
              (fixture.relation "ANALYTICS" "PUBLIC" "GONE" RelationType.Table)
              fixture.start) as [Hschema Hcolumns].
  split.
  - destruct (Hschema failure Hreply) as [Hsuppressed _].
    exact (Hsuppressed "SQL compilation error: " ", or operation cannot be performed."
                       eq_refl).
  - destruct (Hcolumns
                (DatabaseException
                   "SQL compilation error: Table does not exist or not authorized.")
                fixture.start eq_refl) as [Hsuppressed _].
    exact (Hsuppressed "SQL compilation error: Table " "." eq_refl).
Defined.

(** Listing the schemas of a database that does not exist, and populating
    the cache for a schema of it, both end in a runtime failure. *)
Lemma listing_a_missing_database_fails :
  let nowhere := [{| database := "NOWHERE"; schema := "PUBLIC" |}] in
  let reason := "Database does not exist or not authorized." in
  let run := _relations_cache_for_schemas (list SchemaRelation) id
               fixture.get_relation_type fixture.warehouse elements
               nowhere fixture.start in
  (list_schemas "list_schemas" fixture.warehouse "NOWHERE" fixture.start).1
    = Raise (RuntimeException (listing_failure "schemas" "NOWHERE" reason)) ∧
  (list_schemas "list_schemas" fixture.warehouse "ANALYTICS" fixture.start).1
    = Return ["PUBLIC"; "STAGING"] ∧
  run.1 = Raise (RuntimeException (listing_failure "objects" "NOWHERE" reason)).
Proof.
  intros nowhere reason run.
  destruct (listing_failures_are_wrapped "list_schemas" (list SchemaRelation) id
              fixture.get_relation_type fixture.warehouse elements fixture.elements_order
              "NOWHERE" fixture.start nowhere fixture.start run.2 run.1)
    as (_ & Hwrapped & _ & Hbulk).
  destruct (listing_failures_are_wrapped "list_schemas" (list SchemaRelation) id
              fixture.get_relation_type fixture.warehouse elements fixture.elements_order
              "ANALYTICS" fixture.start nowhere fixture.start run.2 run.1)
    as (_ & _ & Hnames & _).
  split_and!.
  - destruct (Hwrapped reason eq_refl) as [Hraised _]. exact Hraised.
  - destruct (Hnames _ eq_refl) as [_ Hcolumn].
    exact (Hcolumn 1 eq_refl eq_refl).
  - assert (run = (run.1, run.2)) as Hrun by (by destruct run).
    destruct (Hbulk Hrun "NOWHERE" reason) as [Hraised _]; [| exact Hraised].
    vm_compute. left.
Defined.

(** A model that asks for LOADING_WH in a session on COMPUTE_WH: the
    entry hook asks for the active warehouse, switches, and hands back
    COMPUTE_WH. *)
Lemma entering_a_model_with_its_own_warehouse :
  let config : gmap string (option string) :=
    {["snowflake_warehouse" := Some "LOADING_WH"]} in
  let asked := Return {| agate.column_names := ["WAREHOUSE"];
                         agate.rows := [["COMPUTE_WH"]] |} in
  pre_model_hook fixture.warehouse (Some "COMPUTE_WH") config fixture.start
    = (Return (Some "COMPUTE_WH"),
       journal_add fixture.start
         [(current_warehouse_query, asked);
          (Execute "use warehouse LOADING_WH" false, Return fixture.no_rows)]) ∧
  pre_model_hook fixture.warehouse (Some "COMPUTE_WH") ∅ fixture.start
    = (Return None, fixture.start).
Proof.
  intros config asked.
  destruct (model_hooks_switch_and_restore fixture.warehouse (Some "COMPUTE_WH")
              config fixture.start) as (_ & Hswitch & _).
  destruct (model_hooks_switch_and_restore fixture.warehouse (Some "COMPUTE_WH")
              ∅ fixture.start) as (Hidle & _).
  split.
  - destruct (Hswitch "LOADING_WH" eq_refl ltac:(discriminate)) as [_ Hcycle].
    exact (Hcycle _ "COMPUTE_WH" [] [] fixture.no_rows eq_refl eq_refl eq_refl).
  - apply Hidle. by left.
Defined.

(** A warehouse asked for as compute_wh in a session whose default is
    COMPUTE_WH is taken for another warehouse: the statement sent names
    it as it was written, and the hook hands back COMPUTE_WH, the
    warehouse the exit hook then switches back to. *)
Lemma lower_case_warehouse_is_another_warehouse :
  let config : gmap string (option string) :=
    {["snowflake_warehouse" := Some "compute_wh"]} in
  let entered := pre_model_hook fixture.warehouse (Some "COMPUTE_WH") config fixture.start in
  ascii_upper "compute_wh" = ascii_upper "COMPUTE_WH" ∧
  config !! "snowflake_warehouse" = Some (Some "compute_wh") ∧
  entered ≠ (Return None, fixture.start) ∧
  entered.1 = Return (Some "COMPUTE_WH") ∧
  (∃ answer outcome,
     journal entered.2
       = [(current_warehouse_query, answer);
          (Execute "use warehouse compute_wh" false, outcome)]) ∧
  journal (post_model_hook fixture.warehouse config (Some "COMPUTE_WH") entered.2).2
    = journal entered.2
        ++ [(Execute "use warehouse COMPUTE_WH" false, Return fixture.no_rows)].
Proof.
  intros config entered.
  assert (config !! "snowflake_warehouse" = Some (Some "compute_wh")) as Hconfig
    by reflexivity.
  split; [reflexivity |]. split; [exact Hconfig |].
  destruct (warehouse_name_is_compared_and_sent_verbatim fixture.warehouse
              "COMPUTE_WH" "compute_wh" config fixture.start Hconfig)
    as (Hsame & Hcycle & Hexit).
  split.
  - intros Hidle. apply Hsame in Hidle. discriminate Hidle.
  - destruct (Hcycle ltac:(discriminate)) as (answer & later & Hstate & Hlater).
    assert (answer = Return {| agate.column_names := ["WAREHOUSE"];
                               agate.rows := [["COMPUTE_WH"]] |}) as Hanswer.
    { apply (f_equal journal) in Hstate. vm_compute in Hstate.
      by injection Hstate as <- _. }
    destruct (Hlater _ "COMPUTE_WH" [] [] Hanswer eq_refl) as (outcome & -> & Hresult).
    assert (outcome = Return fixture.no_rows) as ->.
    { apply (f_equal journal) in Hstate. vm_compute in Hstate.
      by injection Hstate as _ <-. }
    split; [exact Hresult |]. split.
    + exists answer, (Return fixture.no_rows).
      apply (f_equal journal) in Hstate. exact Hstate.
    + exact (f_equal (λ run : result unit * State, journal run.2)
                     (Hexit "COMPUTE_WH" entered.2)).
Defined.

(** ** The further properties at work *)

(** A model that asks for LOADING_WH in a session that cannot tell its
    warehouse: the entry hook raises, and no switch is sent. *)
Lemma entering_a_model_in_a_silent_session :
  let config : gmap string (option string) :=
    {["snowflake_warehouse" := Some "LOADING_WH"]} in
  let failure := RuntimeException "Could not get current warehouse: no results" in
  default (Some "COMPUTE_WH") (config !! "snowflake_warehouse") = Some "LOADING_WH" ∧
  pre_model_hook fixture.silent_warehouse (Some "COMPUTE_WH") config fixture.start
    = (Raise failure,
       journal_add fixture.start [(current_warehouse_query, Return fixture.no_rows)]).
Proof.
  intros config failure.
  assert (default (Some "COMPUTE_WH") (config !! "snowflake_warehouse") = Some "LOADING_WH")
    as Hname by reflexivity.
  split; [exact Hname |].
  destruct (no_active_warehouse_no_switch fixture.silent_warehouse (Some "COMPUTE_WH")
              config "LOADING_WH" fixture.start Hname ltac:(discriminate))
    as (Hempty & _ & _).
  destruct (Hempty fixture.no_rows eq_refl (or_introl eq_refl)) as [_ Hhook].
  exact Hhook.
Defined.

(** Entering a model with LOADING_WH from COMPUTE_WH and leaving it: the
    exit hook sends the switch back to COMPUTE_WH, and nothing else. *)
Lemma leaving_a_model_switches_back :
  let config : gmap string (option string) :=
    {["snowflake_warehouse" := Some "LOADING_WH"]} in
  let entered := pre_model_hook fixture.warehouse (Some "COMPUTE_WH") config fixture.start in
  entered = (Return (Some "COMPUTE_WH"), entered.2) ∧
  (post_model_hook fixture.warehouse config (Some "COMPUTE_WH") entered.2).2
    = journal_add entered.2
        [(Execute "use warehouse COMPUTE_WH" false, Return fixture.no_rows)].
Proof.
  intros config entered.
  assert (entered = (Return (Some "COMPUTE_WH"), entered.2)) as Hentered
    by (vm_compute; reflexivity).
  split; [exact Hentered |].
  destruct (hooks_restore_what_the_session_reported fixture.warehouse (Some "COMPUTE_WH")
              config fixture.start entered.2 (Some "COMPUTE_WH") Hentered)
    as (name & table & row & rows & empty & _ & _ & _ & _ & Hleft).
  exact (Hleft entered.2).
Defined.

(** With QUOTED_IDENTIFIERS_IGNORE_CASE the columns come back as NAME,
    DATABASE_NAME and so on: listing the schemas of ANALYTICS raises
    [KeyError], listing the relations of ANALYTICS.PUBLIC raises
    [ValueError]. *)
Lemma upper_case_columns_are_not_found :
  "name" ∉ ["CREATED_ON"; "NAME"] ∧
  "kind" ∉ ["DATABASE_NAME"; "SCHEMA_NAME"; "NAME"; "KIND"] ∧
  (list_schemas "list_schemas" fixture.ignore_case_warehouse "ANALYTICS" fixture.start).1
    = Raise (BuiltinError "KeyError" "name") ∧
  (list_relations_without_caching "list_relations_without_caching"
     fixture.get_relation_type fixture.ignore_case_warehouse
     (fixture.schema_relation "ANALYTICS" "PUBLIC") fixture.start).1
    = Raise (BuiltinError "ValueError" "tuple.index(x): x not in tuple").
Proof.
  assert ("name" ∉ ["CREATED_ON"; "NAME"]) as Hname
    by (apply (bool_decide_unpack _); vm_compute; exact I).
  assert ("kind" ∉ ["DATABASE_NAME"; "SCHEMA_NAME"; "NAME"; "KIND"]) as Hkind
    by (apply (bool_decide_unpack _); vm_compute; exact I).
  split; [exact Hname |]. split; [exact Hkind |]. split.
  - destruct (listings_need_their_columns "list_schemas" "list_relations_without_caching"
                fixture.get_relation_type fixture.ignore_case_warehouse "ANALYTICS"
                (fixture.schema_relation "ANALYTICS" "PUBLIC") fixture.start
                {| agate.column_names := ["CREATED_ON"; "NAME"];
                   agate.rows := [["2021-12-03"; "PUBLIC"]; ["2021-12-03"; "STAGING"]] |})
      as [Hschemas _].
    exact (Hschemas eq_refl Hname).
  - destruct (listings_need_their_columns "list_schemas" "list_relations_without_caching"
                fixture.get_relation_type fixture.ignore_case_warehouse "ANALYTICS"
                (fixture.schema_relation "ANALYTICS" "PUBLIC") fixture.start
                {| agate.column_names := ["DATABASE_NAME"; "SCHEMA_NAME"; "NAME"; "KIND"];
                   agate.rows := fixture.public_objects |})
      as [_ Hrelations].
    apply (Hrelations eq_refl "kind"); [| exact Hkind].
    do 3 right. left.
Defined.

(** With QUOTED_IDENTIFIERS_IGNORE_CASE bulk population stops at the
    first row of its first listing, which has no column schema_name. *)
Lemma population_stops_at_an_upper_case_listing :
  let run := set_relations_cache (list SchemaRelation) id fixture.get_relation_type
               fixture.ignore_case_warehouse elements
               [{| database := "ANALYTICS"; schema := "PUBLIC" |}] true fixture.start in
  run = (Raise (BuiltinError "KeyError" "schema_name"), run.2) ∧
  ∃ earlier failed answer,
    journal run.2 = journal fixture.start ++ earlier ++ [(objects_listing failed, answer)] ∧
    Forall answered earlier.
Proof.
  intros run.
  assert (run = (Raise (BuiltinError "KeyError" "schema_name"), run.2)) as Hrun
    by (vm_compute; reflexivity).
  split; [exact Hrun |].
  destruct (population_fails_at_its_last_listing (list SchemaRelation) id
              fixture.get_relation_type fixture.ignore_case_warehouse elements
              fixture.elements_order
              [{| database := "ANALYTICS"; schema := "PUBLIC" |}] true fixture.start run.2
              (BuiltinError "KeyError" "schema_name") Hrun)
    as (earlier & failed & answer & Hjournal & Hanswered & _).
  exists earlier, failed, answer. split; [exact Hjournal | exact Hanswered].
Defined.

(** A population that stops at its second database has sent no listing
    twice and has dropped nothing. *)
Lemma failed_population_only_added :
  let run := set_relations_cache (list SchemaRelation) id fixture.get_relation_type
               fixture.warehouse elements fixture.one_missing false fixture.start in
  ∃ new,
    journal run.2 = journal fixture.start ++ new ∧
    NoDup new.*1 ∧
    knownSchemas (relations_cache fixture.start) ⊆ knownSchemas (relations_cache run.2).
Proof.
  intros run.
  destruct (bulk_population_only_adds (list SchemaRelation) id fixture.get_relation_type
              fixture.warehouse elements fixture.elements_order
              fixture.one_missing fixture.start)
    as (new & Hjournal & Hnodup & _ & Hknown & _).
  exists new. split_and!; [exact Hjournal | exact Hnodup | exact Hknown].
Defined.

(** After populating for two schemas with [clear], the cache holds only
    relations of rows listed in that run. *)
Lemma cleared_population_of_two_schemas :
  let run := set_relations_cache (list SchemaRelation) id fixture.get_relation_type
               fixture.warehouse elements fixture.two_schemas true fixture.start in
  run = (Return tt, run.2) ∧
  ∃ new,
    journal run.2 = journal fixture.start ++ new ∧
    ∀ key r, relationsByKey (relations_cache run.2) !! key = Some r →
      relation_key r = key ∧
      ∃ row, row ∈ listed_rows new ∧
             _database_object_to_relation fixture.get_relation_type row = Return r.
Proof.
  intros run.
  assert (run = (Return tt, run.2)) as Hrun by (vm_compute; reflexivity).
  split; [exact Hrun |].
  destruct (cleared_population_is_a_snapshot (list SchemaRelation) id
              fixture.get_relation_type fixture.warehouse elements
              fixture.two_schemas fixture.start run.2 Hrun)
    as (new & Hjournal & Hstored & _).
  exists new. split; [exact Hjournal | exact Hstored].
Defined.

(** Populating for no schema at all. *)
Lemma population_of_nothing :
  set_relations_cache (list SchemaRelation) id fixture.get_relation_type
    fixture.warehouse elements [] false fixture.start
    = (Return tt, fixture.start).
Proof.
  exact (empty_manifest_sends_nothing (list SchemaRelation) id fixture.get_relation_type
           fixture.warehouse elements fixture.elements_order [] false fixture.start
           eq_refl).
Defined.

(** The cache a failed population leaves behind is consistent. *)
Lemma failed_population_leaves_known_schemas :
  let run := set_relations_cache (list SchemaRelation) id fixture.get_relation_type
               fixture.warehouse elements fixture.one_missing false fixture.start in
  schemas_of_relations_known (relations_cache fixture.start) ∧
  schemas_of_relations_known (relations_cache run.2).
Proof.
  intros run.
  assert (schemas_of_relations_known (relations_cache fixture.start)) as Hstart.
  { intros key r Hr. simpl in Hr. rewrite lookup_empty in Hr. discriminate Hr. }
  split; [exact Hstart |].
  exact (population_keeps_schemas_of_relations_known (list SchemaRelation) id
           fixture.get_relation_type fixture.warehouse elements
           fixture.one_missing false fixture.start (or_intror Hstart)).
Defined.

(** Populating twice in a row against the same warehouse. *)
Lemma populating_twice_changes_nothing :
  let first := set_relations_cache (list SchemaRelation) id fixture.get_relation_type
                 fixture.warehouse elements fixture.two_schemas true fixture.start in
  let second := set_relations_cache (list SchemaRelation) id fixture.get_relation_type
                  fixture.warehouse elements fixture.two_schemas false first.2 in
  first = (Return tt, first.2) ∧
  second = (Return tt, second.2) ∧
  relations_cache second.2 = relations_cache first.2.
Proof.
  intros first second.
  assert (first = (Return tt, first.2)) as Hfirst by (vm_compute; reflexivity).
  assert (second = (Return tt, second.2)) as Hsecond by (vm_compute; reflexivity).
  split; [exact Hfirst |]. split; [exact Hsecond |].
  apply (repeated_population_changes_nothing (list SchemaRelation) id
           fixture.get_relation_type fixture.warehouse elements
           fixture.two_schemas true fixture.start first.2 second.2 Hfirst Hsecond).
  vm_compute. reflexivity.
Defined.
